(** * write_config: generation of the hound configuration files

    A shallow embedding of [write_config.py] and the properties of its
    repository adapters, manifest resolver, profile composer, change
    detector and restart driver.

    Python values are modelled as follows:
    - [str] as the [string] of the bytes of its UTF-8 encoding, with the
      few string methods the program calls written out in [PyStr];
    - the [conf['repos']] dictionary as [gmap string repo]: the program
      only inserts into it, reads its values as a set and serialises it,
      so the insertion order of a Python dict is not observable in any
      property below;
    - a Python [set] of strings as [gset string];
    - exceptions as a result type threaded through a state monad whose
      state holds the [functools.lru_cache] tables, the files under
      [/srv/hound], and the logs of the HTTP requests and of the
      [systemctl] commands issued so far. *)

From Stdlib Require Import ZArith String Ascii List Bool Lia.
From stdpp Require Import base option gmap strings list fin_maps fin_sets.

Open Scope string_scope.
Open Scope Z_scope.

(** ** Python string methods *)

Module PyStr.

(** The methods that look for an ASCII character or substring work on
    the bytes as they do on the characters: in UTF-8 no byte of a
    multi-byte character is an ASCII byte, and a character's encoding
    starts nowhere but at that character.  The methods that depend on what
    a white space character is decode it. *)

Definition between (lo hi n : nat) : bool := ((lo <=? n) && (n <=? hi))%nat.

(** The number of bytes of the white space character that [s] starts
    with, [0] when it starts with none.  The characters [c] for which
    [c.isspace()] holds, which are also those that [\s] matches, are
    U+0009 to U+000D, U+001C to U+0020, U+0085, U+00A0, U+1680, U+2000 to
    U+200A, U+2028, U+2029, U+202F, U+205F and U+3000. *)
Definition space_width (s : string) : nat :=
  match s with
  | String c0 s1 =>
      let b0 := nat_of_ascii c0 in
      if between 9 13 b0 || between 28 32 b0 then 1%nat
      else
        match s1 with
        | String c1 s2 =>
            let b1 := nat_of_ascii c1 in
            if (b0 =? 194)%nat && ((b1 =? 133)%nat || (b1 =? 160)%nat) then 2%nat
            else
              match s2 with
              | String c2 _ =>
                  let b2 := nat_of_ascii c2 in
                  if (b0 =? 225)%nat && (b1 =? 154)%nat && (b2 =? 128)%nat
                  then 3%nat
                  else if (b0 =? 226)%nat && (b1 =? 128)%nat
                          && (between 128 138 b2 || between 168 169 b2
                              || (b2 =? 175)%nat)
                  then 3%nat
                  else if (b0 =? 226)%nat && (b1 =? 129)%nat && (b2 =? 159)%nat
                  then 3%nat
                  else if (b0 =? 227)%nat && (b1 =? 128)%nat && (b2 =? 128)%nat
                  then 3%nat
                  else 0%nat
              | EmptyString => 0%nat
              end
        | EmptyString => 0%nat
        end
  | EmptyString => 0%nat
  end.

(** [s.lstrip()]; [skip] counts the bytes of a white space character that
    are still to be dropped. *)
Fixpoint lstrip_from (skip : nat) (s : string) : string :=
  match s with
  | EmptyString => EmptyString
  | String _ s' =>
      match skip with
      | S k => lstrip_from k s'
      | O =>
          match space_width s with
          | S k => lstrip_from k s'
          | O => s
          end
      end
  end.

Definition lstrip (s : string) : string := lstrip_from O s.

(** The number of white space characters that [s] starts with. *)
Fixpoint leading_spaces_from (skip : nat) (s : string) : nat :=
  match s with
  | EmptyString => O
  | String _ s' =>
      match skip with
      | S k => leading_spaces_from k s'
      | O =>
          match space_width s with
          | S k => S (leading_spaces_from k s')
          | O => O
          end
      end
  end.

Definition leading_spaces (s : string) : nat := leading_spaces_from O s.

(** [s.isspace()] *)
Definition isspace (s : string) : bool :=
  negb (String.eqb s "") && String.eqb (lstrip s) "".

(** [s.rstrip()]: [s] up to the first position from which only white
    space follows. *)
Fixpoint rstrip (s : string) : string :=
  match s with
  | EmptyString => EmptyString
  | String c s' => if String.eqb (lstrip s) "" then EmptyString
                   else String c (rstrip s')
  end.

Definition strip (s : string) : string := rstrip (lstrip s).

(** [s.lower()] on the ASCII range. *)
Definition lower_ascii (c : ascii) : ascii :=
  let n := nat_of_ascii c in
  if ((65 <=? n)%nat && (n <=? 90)%nat)%bool then ascii_of_nat (n + 32) else c.

Fixpoint lower (s : string) : string :=
  match s with
  | String c s' => String (lower_ascii c) (lower s')
  | EmptyString => EmptyString
  end.

Definition startswith (s pre : string) : bool := String.prefix pre s.

(** [s.endswith(suffix)] *)
Definition endswith (s suffix : string) : bool :=
  let n := String.length s in
  let k := String.length suffix in
  (k <=? n)%nat && String.eqb (String.substring (n - k) k s) suffix.

(** [s[:-k]] for [k > 0] *)
Definition drop_last (k : nat) (s : string) : string :=
  String.substring 0 (String.length s - k) s.

(** [needle in s] *)
Fixpoint contains (needle s : string) : bool :=
  String.prefix needle s ||
  match s with
  | String _ s' => contains needle s'
  | EmptyString => false
  end.

(** [s.replace(old, new)] for a non-empty [old]: the occurrences of [old]
    are replaced from left to right, without overlap.  [skip] counts the
    characters of a matched occurrence that are still to be dropped. *)
Fixpoint replace_from (old new : string) (skip : nat) (s : string) : string :=
  match s with
  | EmptyString => EmptyString
  | String c s' =>
      match skip with
      | S k => replace_from old new k s'
      | O =>
          if String.prefix old s
          then new +:+ replace_from old new (String.length old - 1) s'
          else String c (replace_from old new O s')
      end
  end.

Definition replace (old new s : string) : string := replace_from old new O s.

(** [s.split(sep)] for a one-character separator. *)
Fixpoint split_go (sep : ascii) (cur : string) (s : string) : list string :=
  match s with
  | EmptyString => [String.rev cur]
  | String c s' =>
      if Ascii.eqb c sep then String.rev cur :: split_go sep EmptyString s'
      else split_go sep (String c cur) s'
  end.

Definition split (sep : ascii) (s : string) : list string :=
  split_go sep EmptyString s.

(** Position of the first character satisfying [p]. *)
Fixpoint find_first (p : ascii → bool) (s : string) : option nat :=
  match s with
  | EmptyString => None
  | String c s' => if p c then Some O else S <$> find_first p s'
  end.

(** Position of the last character satisfying [p]. *)
Fixpoint find_last (p : ascii → bool) (s : string) : option nat :=
  match s with
  | EmptyString => None
  | String c s' =>
      match find_last p s' with
      | Some i => Some (S i)
      | None => if p c then Some O else None
      end
  end.

Definition drop (k : nat) (s : string) : string :=
  String.substring k (String.length s - k) s.

Definition take (k : nat) (s : string) : string := String.substring 0 k s.

(** ['\n'.join(l)] *)
Fixpoint join (sep : string) (l : list string) : string :=
  match l with
  | [] => EmptyString
  | [x] => x
  | x :: l' => x +:+ sep +:+ join sep l'
  end.

End PyStr.

(** ** Repository descriptors and the source adapters *)

(** [{'base-url': ..., 'anchor': ...}] *)
Record url_pattern := UrlPattern {
  base_url : string;
  anchor : string
}.

(** A value of [conf['repos']]:
    [{'url': ..., 'url-pattern': ..., 'ms-between-poll': ...}], where the
    ['url-pattern'] key is absent from what [gh_repo] returns. *)
Record repo := Repo {
  url : string;
  url_pattern_of : option url_pattern;
  ms_between_poll : Z
}.

Global Instance url_pattern_eq_dec : EqDecision url_pattern.
Proof. solve_decision. Defined.

Global Instance repo_eq_dec : EqDecision repo.
Proof. solve_decision. Defined.

(** 90 minutes *)
Definition POLL : Z := 90 * 60 * 1000.
Definition DATA : string := "/srv/hound".

Definition phab_repo (name : string) : repo :=
  {| url := "https://phabricator.wikimedia.org/source/" +:+ name;
     url_pattern_of := Some
       {| base_url := "https://phabricator.wikimedia.org/source/" +:+ name
                      +:+ "/browse/master/{path};{rev}{anchor}";
          anchor := "${line}" |};
     ms_between_poll := POLL |}.

Definition repo_info (gerrit_name : string) : repo :=
  {| url := "https://gerrit-replica.wikimedia.org/r/" +:+ gerrit_name +:+ ".git";
     url_pattern_of := Some
       {| base_url := "https://gerrit.wikimedia.org/g/" +:+
                      (gerrit_name +:+ "/+/{rev}/{path}{anchor}");
          anchor := "#{line}" |};
     ms_between_poll := POLL |}.

Definition bitbucket_repo (bb_name : string) : repo :=
  {| url := "https://bitbucket.org/" +:+ bb_name +:+ ".git";
     url_pattern_of := Some
       {| base_url := "https://bitbucket.org/" +:+ bb_name +:+ "/src/{rev}/{path}";
          anchor := "" |};
     ms_between_poll := POLL |}.

(** [gh_repo(gh_name, host='github.com')]: the host is an explicit argument
    here, [gh_repo_default] is the call without it. *)
Definition gh_repo (gh_name : string) (host : string) : repo :=
  {| url := "https://" +:+ host +:+ "/" +:+ gh_name;
     url_pattern_of := None;
     ms_between_poll := POLL |}.

Definition gh_repo_default (gh_name : string) : repo := gh_repo gh_name "github.com".

Definition gitlab_repo (gl_name : string) : repo := gh_repo gl_name "gitlab.com".

(** ** The standard library's [ConfigParser]

    The part of [configparser.ConfigParser] that [parse_gitmodules] relies
    on, for a parser created with the default settings: full-line comments
    ([#] and [;]), section headers, options delimited by the first [=] or
    [:], continuation lines, option names lowercased, strict duplicate
    detection, the [DEFAULT] section and the interpolation of values
    ([BasicInterpolation]).  Every [configparser.Error] is one exception
    here. *)

Module ConfigParser.

(** The value of an option is kept as the list of its lines until the
    end of the read. *)
Definition options := list (string * list string).

Record state := State {
  sects : list (string * options);  (* in order of first appearance *)
  cursect : option string;
  optname : option string;
  indent_level : nat
}.

Definition config := list (string * list (string * string)).

Definition default_section : string := "DEFAULT".

Fixpoint alist_get {V} (k : string) (l : list (string * V)) : option V :=
  match l with
  | [] => None
  | (k', v) :: l' => if String.eqb k k' then Some v else alist_get k l'
  end.

Fixpoint alist_alter {V} (f : V → V) (k : string) (l : list (string * V))
    : list (string * V) :=
  match l with
  | [] => []
  | (k', v) :: l' =>
      if String.eqb k k' then (k', f v) :: l' else (k', v) :: alist_alter f k l'
  end.

(** File iteration: the text cut at each newline, without a last empty
    piece. *)
Definition lines (text : string) : list string :=
  let l := PyStr.split "010"%char text in
  match reverse l with
  | EmptyString :: l' => reverse l'
  | _ => l
  end.

Definition is_delim (c : ascii) : bool :=
  Ascii.eqb c "="%char || Ascii.eqb c ":"%char.

(** [SECTCRE.match(value)]: the header between the first character, which
    is an opening bracket, and the last closing bracket. *)
Definition section_header (value : string) : option string :=
  match value with
  | String "[" rest =>
      match PyStr.find_last (Ascii.eqb "]"%char) rest with
      | Some (S j) => Some (PyStr.take (S j) rest)
      | _ => None
      end
  | _ => None
  end.

(** [_optcre.match(value)]: the option name and the value around the
    first delimiter. *)
Definition option_line (value : string) : option (string * string) :=
  match PyStr.find_first is_delim value with
  | Some (S i) =>
      Some (PyStr.lower (PyStr.rstrip (PyStr.take (S i) value)),
            PyStr.strip (PyStr.drop (S (S i)) value))
  | _ => None
  end.

Definition append_line (sect opt line : string) (st : state) : state :=
  {| sects := alist_alter (alist_alter (λ v, (v ++ [line])%list) opt) sect (sects st);
     cursect := cursect st;
     optname := optname st;
     indent_level := indent_level st |}.

(** The branch of [_read] for a line that is not a continuation line: a
    section header or an option; [None] when an error is raised or
    recorded. *)
Definition header_or_option (st : state) (stripped : string)
    (cur_indent_level : nat) : option state :=
  match section_header stripped with
  | Some sectname =>
      match alist_get sectname (sects st) with
      | Some _ =>
          if String.eqb sectname default_section
          then Some {| sects := sects st; cursect := Some sectname;
                       optname := None; indent_level := cur_indent_level |}
          else None
      | None =>
          Some {| sects := (sects st ++ [(sectname, [])])%list;
                  cursect := Some sectname;
                  optname := None; indent_level := cur_indent_level |}
      end
  | None =>
      match cursect st with
      | None => None
      | Some sect =>
          match option_line stripped with
          | None => None
          | Some (opt, optval) =>
              match alist_get sect (sects st) ≫= alist_get opt with
              | Some _ => None
              | None =>
                  Some {| sects := alist_alter (λ o, (o ++ [(opt, [optval])])%list)
                                              sect (sects st);
                          cursect := Some sect;
                          optname := Some opt;
                          indent_level := cur_indent_level |}
              end
          end
      end
  end.

(** One iteration of the loop of [_read]. *)
Definition read_line (st : state) (line : string) : option state :=
  let stripped := PyStr.strip line in
  if PyStr.startswith stripped "#" || PyStr.startswith stripped ";" then Some st
  else if String.eqb stripped "" then
    match cursect st, optname st with
    | Some sect, Some opt => Some (append_line sect opt "" st)
    | _, _ => Some st
    end
  else
    (* first_nonspace.start(), the line holding a character that is not
       white space *)
    let cur_indent_level := PyStr.leading_spaces line in
    match cursect st, optname st with
    | Some sect, Some opt =>
        if (indent_level st <? cur_indent_level)%nat
        then Some (append_line sect opt stripped st)
        else header_or_option st stripped cur_indent_level
    | _, _ => header_or_option st stripped cur_indent_level
    end.

Fixpoint read_lines (st : state) (ls : list string) : option state :=
  match ls with
  | [] => Some st
  | l :: ls' => st' ← read_line st l; read_lines st' ls'
  end.

Definition join_multiline_values (o : options) : list (string * string) :=
  (λ kv, (kv.1, PyStr.rstrip (PyStr.join (String "010" "") kv.2))) <$> o.

(** [config = ConfigParser(); config.read_string(text)] *)
Definition read_string (text : string) : option config :=
  st ← read_lines {| sects := []; cursect := None; optname := None;
                     indent_level := O |} (lines text);
  Some ((λ s, (s.1, join_multiline_values s.2)) <$> sects st).

(** [config.sections()] *)
Definition sections (c : config) : list string :=
  filter (λ n, n ≠ default_section) (fst <$> c).

(** The raw value behind [config[section][key]]: the section's own option
    or the default one. *)
Definition raw_get (c : config) (section key : string) : option string :=
  (alist_get section c ≫= alist_get (PyStr.lower key))
  ∪ (alist_get default_section c ≫= alist_get (PyStr.lower key)).

(** [_KEYCRE.match(rest)] for a [rest] that starts with [%(], given what
    follows these two characters: the name up to the first closing
    parenthesis, which an [s] follows, and what comes after that [s]. *)
Definition key_reference (after_paren : string) : option (string * string) :=
  match PyStr.find_first (Ascii.eqb ")"%char) after_paren with
  | Some (S j) =>
      match PyStr.drop (S (S j)) after_paren with
      | String "s" rest => Some (PyStr.take (S j) after_paren, rest)
      | _ => None
      end
  | _ => None
  end.

Definition MAX_INTERPOLATION_DEPTH : nat := 10.

(** [BasicInterpolation._interpolate_some] with [depth] calls still
    allowed: the text with [%%] replaced by [%] and every [%(name)s] by
    the value of the option [name], itself interpolated when it holds a
    [%]; [None] for an [InterpolationError].  [fuel] bounds the length of
    [rest]. *)
Fixpoint interpolate_some (depth : nat) (map : string → option string)
    (value : string) : option string :=
  match depth with
  | O => None
  | S depth' =>
      (fix loop (fuel : nat) (rest : string) {struct fuel} : option string :=
         match fuel with
         | O => Some EmptyString
         | S fuel' =>
             match PyStr.find_first (Ascii.eqb "%"%char) rest with
             | None => Some rest
             | Some p =>
                 let before := PyStr.take p rest in
                 match PyStr.drop p rest with
                 | String _ (String "%" rest') =>
                     after ← loop fuel' rest';
                     Some (before +:+ "%" +:+ after)
                 | String _ (String "(" after_paren) =>
                     match key_reference after_paren with
                     | None => None
                     | Some (name, rest') =>
                         v ← map (PyStr.lower name);
                         expanded ← (if PyStr.contains "%" v
                                     then interpolate_some depth' map v
                                     else Some v);
                         after ← loop fuel' rest';
                         Some (before +:+ expanded +:+ after)
                     end
                 | _ => None
                 end
             end
         end) (String.length value) value
  end.

(** [config.get(section, key)]: the raw value interpolated with the
    options of the section and the default ones. *)
Definition get (c : config) (section key : string) : option (option string) :=
  v ← raw_get c section key;
  Some (interpolate_some MAX_INTERPOLATION_DEPTH (raw_get c section) v).

End ConfigParser.

(** ** The configuration, the environment and the state of a run *)

(** The dictionary [conf] that [make_conf] builds and dumps. *)
Record conf := Conf {
  max_concurrent_indexers : Z;
  dbpath : string;
  detect_ref : bool;   (* conf['vcs-config']['git']['detect-ref'] *)
  repos : gmap string repo
}.

Global Instance conf_eq_dec : EqDecision conf.
Proof. solve_decision. Defined.

(** The dictionary [conf] of [make_conf] around a mapping [conf['repos']]. *)
Definition conf_of (r : gmap string repo) : conf :=
  {| max_concurrent_indexers := 2; dbpath := "data"; detect_ref := true;
     repos := r |}.

(** The decoded body of the [extdistrepos] query:
    [data['query']['extdistrepos']]. *)
Record extdistrepos := ExtDistRepos {
  extdist_extensions : list string;
  extdist_skins : list string
}.

(** The loaded settings document: top-level key, then bundle name, then
    the project names. *)
Abbreviation settings := (gmap string (gmap string (list string))).

Inductive request :=
  | ReqExtdistrepos
  | ReqGet (url : string)
  | ReqGerritFile (gerrit_name path : string)
  | ReqGerritProjects (prefix : string).

Global Instance request_eq_dec : EqDecision request.
Proof. solve_decision. Defined.

(** What is outside the program.  Each answer may depend on how many
    requests (or commands) were issued before, so that the upstream state
    can change during a run.  [None] stands for a request that raises: a
    connection failure, an error status passed to [raise_for_status], or a
    body that cannot be decoded. *)
Record environment := Environment {
  extdistrepos_api : nat → option extdistrepos;
  raw_file : nat → string → option string;
  gerrit_file_yaml : nat → string → string → option settings;
  (* project name to its ['state'] *)
  gerrit_projects : nat → string → option (gmap string string);
  (* exit status of [systemctl] *)
  systemctl : nat → list string → Z
}.

Inductive exn :=
  | RequestFailed (req : request)
  | RuntimeError (msg : string)
  | KeyError (key : string)
  | ConfigParserError
  | CalledProcessError (cmd : list string) (returncode : Z)
  (* what [json.load] or [extract_urls] raises on a file that does not hold
     a configuration: [JSONDecodeError], [KeyError], [TypeError] *)
  | UnreadableConfig (path : string).

Inductive result (A : Type) :=
  | Ok (a : A)
  | Raise (e : exn).
Arguments Ok {A} a.
Arguments Raise {A} e.

(** The state that a run reads and changes.  The files are in two parts:
    [files] maps the path of a file that loads as a configuration to that
    configuration, and [unreadable] holds the paths of the other files in
    place, on which [json.load] or [extract_urls] raises (a truncated or
    malformed file, or JSON of another shape); a path of [files] counts as
    loading.  Creating a directory and opening and writing a file are
    taken to succeed. *)
Record world := World {
  net_log : list request;        (* the requests issued, the latest first *)
  extdist_cache : option extdistrepos;
  gitmodules_cache : list (string * list (string * repo));
  settings_cache : option settings;
  dirs : gset string;
  files : gmap string conf;
  unreadable : gset string;
  sys_log : list (list string)   (* the commands run, the latest first *)
}.

Global Instance extdistrepos_eq_dec : EqDecision extdistrepos.
Proof. solve_decision. Defined.

Global Instance exn_eq_dec : EqDecision exn.
Proof. solve_decision. Defined.

Global Instance result_eq_dec {A} `{EqDecision A} : EqDecision (result A).
Proof. solve_decision. Defined.

Global Instance world_eq_dec : EqDecision world.
Proof. solve_decision. Defined.

Definition log_request (r : request) (w : world) : world :=
  {| net_log := r :: net_log w; extdist_cache := extdist_cache w;
     gitmodules_cache := gitmodules_cache w; settings_cache := settings_cache w;
     dirs := dirs w; files := files w;
     unreadable := unreadable w; sys_log := sys_log w |}.

Definition set_extdist_cache (c : option extdistrepos) (w : world) : world :=
  {| net_log := net_log w; extdist_cache := c;
     gitmodules_cache := gitmodules_cache w; settings_cache := settings_cache w;
     dirs := dirs w; files := files w;
     unreadable := unreadable w; sys_log := sys_log w |}.

Definition set_gitmodules_cache (c : list (string * list (string * repo)))
    (w : world) : world :=
  {| net_log := net_log w; extdist_cache := extdist_cache w;
     gitmodules_cache := c; settings_cache := settings_cache w;
     dirs := dirs w; files := files w;
     unreadable := unreadable w; sys_log := sys_log w |}.

Definition set_settings_cache (c : option settings) (w : world) : world :=
  {| net_log := net_log w; extdist_cache := extdist_cache w;
     gitmodules_cache := gitmodules_cache w; settings_cache := c;
     dirs := dirs w; files := files w;
     unreadable := unreadable w; sys_log := sys_log w |}.

Definition set_dirs (d : gset string) (w : world) : world :=
  {| net_log := net_log w; extdist_cache := extdist_cache w;
     gitmodules_cache := gitmodules_cache w; settings_cache := settings_cache w;
     dirs := d; files := files w;
     unreadable := unreadable w; sys_log := sys_log w |}.

Definition set_files (f : gmap string conf) (w : world) : world :=
  {| net_log := net_log w; extdist_cache := extdist_cache w;
     gitmodules_cache := gitmodules_cache w; settings_cache := settings_cache w;
     dirs := dirs w; files := f;
     unreadable := unreadable w; sys_log := sys_log w |}.

Definition set_unreadable (u : gset string) (w : world) : world :=
  {| net_log := net_log w; extdist_cache := extdist_cache w;
     gitmodules_cache := gitmodules_cache w; settings_cache := settings_cache w;
     dirs := dirs w; files := files w;
     unreadable := u; sys_log := sys_log w |}.

(** [with open(path, 'w') as f: json.dump(c, f)] *)
Definition write_file (path : string) (c : conf) (w : world) : world :=
  set_unreadable (unreadable w ∖ {[path]}) (set_files (<[path := c]> (files w)) w).

Definition log_command (c : list string) (w : world) : world :=
  {| net_log := net_log w; extdist_cache := extdist_cache w;
     gitmodules_cache := gitmodules_cache w; settings_cache := settings_cache w;
     dirs := dirs w; files := files w;
     unreadable := unreadable w; sys_log := c :: sys_log w |}.

(** The state of a fresh process: nothing requested, nothing cached,
    nothing run; the file system is what earlier runs left. *)
Definition fresh_world (d : gset string) (f : gmap string conf) : world :=
  {| net_log := []; extdist_cache := None; gitmodules_cache := [];
     settings_cache := None; dirs := d; files := f; unreadable := ∅;
     sys_log := [] |}.

(** ** The monad of the program: state and exceptions *)

Definition M (A : Type) : Type := world → result A * world.

Definition ret {A} (a : A) : M A := λ w, (Ok a, w).

Definition raise {A} (e : exn) : M A := λ w, (Raise e, w).

Definition bind {A B} (m : M A) (k : A → M B) : M B :=
  λ w, match m w with
       | (Ok a, w') => k a w'
       | (Raise e, w') => (Raise e, w')
       end.

Global Instance M_ret : MRet M := @ret.
Global Instance M_bind : MBind M := λ A B k m, bind m k.

Definition get_world : M world := λ w, (Ok w, w).
Definition modify (f : world → world) : M unit := λ w, (Ok tt, f w).

(** [try: body / except <caught>: handler] followed by [rest], where the
    handler returns from the enclosing function. *)
Definition try_except {A B} (body : M A) (caught : exn → bool)
    (handler : M B) (rest : A → M B) : M B :=
  λ w, match body w with
       | (Ok a, w') => rest a w'
       | (Raise e, w') => if caught e then handler w' else (Raise e, w')
       end.

(** [functools.lru_cache()]: at most [lru_maxsize] results, the most
    recently used first; a call that raises stores nothing. *)
Definition lru_maxsize : nat := 128.

Fixpoint lru_get {V} (k : string) (c : list (string * V)) : option V :=
  match c with
  | [] => None
  | (k', v) :: c' => if String.eqb k k' then Some v else lru_get k c'
  end.

Definition lru_put {V} (k : string) (v : V) (c : list (string * V))
    : list (string * V) :=
  take lru_maxsize ((k, v) :: filter (λ kv, kv.1 ≠ k) c).

(** The named boolean parameters of [make_conf]; a call of [make_conf]
    names the ones it sets to [True]. *)
Inductive flag :=
  | core | exts | skins | ooui | operations | armchairgm | twn | milkshake
  | bundled | vendor | wikimedia | pywikibot | services | libs | analytics
  | puppet | shouthow | schemas | wmcs.

Global Instance flag_eq_dec : EqDecision flag.
Proof. solve_decision. Defined.

Definition enabled (on : list flag) (f : flag) : bool := bool_decide (f ∈ on).

(** The parsed command line. *)
Record arguments := Arguments_ { restart : bool }.

(** [conf['repos'][k] = v] for each pair, in order. *)
Definition set_items (items : list (string * repo)) (m : gmap string repo)
    : gmap string repo :=
  foldl (λ acc kv, <[kv.1 := kv.2]> acc) m items.

(** [extract_urls]: the set of the URLs of the configured repositories. *)
Definition extract_urls (c : conf) : gset string :=
  map_img (url <$> repos c).

(** The set [old] of [make_conf]: the URLs of the configuration found at
    the destination, or the empty set when there is no such file. *)
Definition previous_urls (previous : option conf) : gset string :=
  match previous with
  | Some loaded => extract_urls loaded
  | None => ∅
  end.

(** The test [new != old] of [make_conf]. *)
Definition has_changed (previous : option conf) (c : conf) : bool :=
  bool_decide (extract_urls c ≠ previous_urls previous).

(** [os.path.join(a, b)] *)
Definition os_path_join (a b : string) : string :=
  if PyStr.startswith b "/" then b
  else if String.eqb a "" || PyStr.endswith a "/" then a +:+ b
  else a +:+ "/" +:+ b.

(** The paths that [make_conf] derives from the profile name. *)
Definition dirname_of (name : string) : string := "hound-" +:+ name.
Definition directory_of (name : string) : string :=
  os_path_join DATA (dirname_of name).
Definition dest_of (name : string) : string :=
  os_path_join (directory_of name) "config.json".

(** An inclusion rule of [make_conf]. *)
Abbreviation rule := (gmap string repo → M (gmap string repo)).

Section Program.

Variable E : environment.

(** *** Remote queries *)

Definition fetch {A} (req : request) (answer : nat → option A) : M A :=
  λ w, match answer (length (net_log w)) with
       | Some a => (Ok a, log_request req w)
       | None => (Raise (RequestFailed req), log_request req w)
       end.

Definition get_extdist_repos : M extdistrepos :=
  w ← get_world;
  match extdist_cache w with
  | Some data => mret data
  | None =>
      data ← fetch ReqExtdistrepos (extdistrepos_api E);
      modify (set_extdist_cache (Some data));;
      mret data
  end.

(** The body of the loop of [parse_gitmodules] for one section's [url]:
    the entry to append, nothing for a host that is passed over, or the
    exception. *)
Definition classify (url0 : string) : result (option (string * repo)) :=
  let url := if PyStr.endswith url0 ".git" then PyStr.drop_last 4 url0 else url0 in
  if PyStr.contains "github.com" url then
    let name := PyStr.replace "https://github.com/" ""
                  (PyStr.replace "git@github.com:" "" url) in
    Ok (Some (name, gh_repo_default name))
  else if PyStr.contains "bitbucket.org" url then
    let name := PyStr.replace "https://bitbucket.org/" "" url in
    Ok (Some (name, bitbucket_repo name))
  else if PyStr.contains "gitlab.com" url then
    let name := PyStr.replace "https://gitlab.com/" "" url in
    Ok (Some (name, gitlab_repo name))
  else if PyStr.contains "invent.kde.org" url then
    let name := PyStr.replace "https://invent.kde.org/" "" url in
    Ok (Some (name, gh_repo name "invent.kde.org"))
  else if PyStr.contains "phabricator.nichework.com" url then
    Ok None
  else
    Raise (RuntimeError ("Unsure how to handle URL: " +:+ url)).

(** [config[section]['url']] *)
Definition section_url (config : ConfigParser.config) (section : string)
    : result string :=
  match ConfigParser.get config section "url" with
  | None => Raise (KeyError "url")
  | Some None => Raise ConfigParserError
  | Some (Some v) => Ok v
  end.

(** The loop of [parse_gitmodules] over the sections left, with the
    list [repos] built so far. *)
Fixpoint resolve_sections (config : ConfigParser.config)
    (sections : list string) (repos : list (string * repo))
    : result (list (string * repo)) :=
  match sections with
  | [] => Ok repos
  | section :: rest =>
      match section_url config section with
      | Raise e => Raise e
      | Ok url0 =>
          match classify url0 with
          | Raise e => Raise e
          | Ok None => resolve_sections config rest repos
          | Ok (Some entry) => resolve_sections config rest (repos ++ [entry])%list
          end
      end
  end.

(** What [parse_gitmodules] does with the fetched text. *)
Definition resolve_manifest (text : string) : result (list (string * repo)) :=
  match ConfigParser.read_string text with
  | None => Raise ConfigParserError
  | Some config => resolve_sections config (ConfigParser.sections config) []
  end.

Definition parse_gitmodules_uncached (url : string) : M (list (string * repo)) :=
  text ← fetch (ReqGet url) (λ n, raw_file E n url);
  match resolve_manifest text with
  | Ok repos => mret repos
  | Raise e => raise e
  end.

Definition parse_gitmodules (url : string) : M (list (string * repo)) :=
  w ← get_world;
  match lru_get url (gitmodules_cache w) with
  | Some repos =>
      modify (set_gitmodules_cache (lru_put url repos (gitmodules_cache w)));;
      mret repos
  | None =>
      repos ← parse_gitmodules_uncached url;
      w' ← get_world;
      modify (set_gitmodules_cache (lru_put url repos (gitmodules_cache w')));;
      mret repos
  end.

(** [yaml.safe_load(_get_gerrit_file(gerrit_name, path))] *)
Definition get_gerrit_yaml (gerrit_name path : string) : M settings :=
  fetch (ReqGerritFile gerrit_name path)
        (λ n, gerrit_file_yaml E n gerrit_name path).

Definition _settings_yaml : M settings :=
  w ← get_world;
  match settings_cache w with
  | Some doc => mret doc
  | None =>
      doc ← get_gerrit_yaml "mediawiki/tools/release" "make-release/settings.yaml";
      modify (set_settings_cache (Some doc));;
      mret doc
  end.

(** [doc[key1][key2]] *)
Definition settings_get (doc : settings) (key1 key2 : string)
    : M (list string) :=
  match doc !! key1 with
  | None => raise (KeyError key1)
  | Some d =>
      match d !! key2 with
      | None => raise (KeyError key2)
      | Some l => mret l
      end
  end.

Definition gerrit_prefix_list (prefix : string) : M (gmap string repo) :=
  data ← fetch (ReqGerritProjects prefix) (λ n, gerrit_projects E n prefix);
  mret (map_imap (λ repo state,
                    if String.eqb state "ACTIVE" then Some (repo_info repo)
                    else None) data).

Definition bundled_repos : M (list string) :=
  doc ← _settings_yaml; settings_get doc "bundles" "base".

Definition wikimedia_deployed_repos : M (list string) :=
  doc ← _settings_yaml; settings_get doc "bundles" "wmf_core".

(** *** The inclusion rules of [make_conf]

    One rule per [if] block of [make_conf], in the order of the source.
    A rule takes the mapping [conf['repos']] built so far and returns it
    with its own entries set. *)

Definition rule_core (fl : flag → bool) : rule := λ repos,
  if fl core
  then mret (<["MediaWiki core" := repo_info "mediawiki/core"]> repos)
  else mret repos.

Definition rule_pywikibot (fl : flag → bool) : rule := λ repos,
  if fl pywikibot
  then mret (<["Pywikibot" := repo_info "pywikibot/core"]> repos)
  else mret repos.

Definition rule_ooui (fl : flag → bool) : rule := λ repos,
  if fl ooui
  then mret (<["OOUI" := repo_info "oojs/ui"]> repos)
  else mret repos.

Definition nonwmf_extensions : string :=
  "https://raw.githubusercontent.com/MWStake/nonwmf-extensions/master/.gitmodules".

Definition nonwmf_skins : string :=
  "https://raw.githubusercontent.com/MWStake/nonwmf-skins/master/.gitmodules".

Definition rule_exts (fl : flag → bool) (data : extdistrepos) : rule := λ repos,
  if fl exts then
    (* Sanity check (T223771) *)
    match extdist_extensions data with
    | [] => raise (RuntimeError "Why are there no Gerrit extensions?")
    | _ =>
        let repos := set_items
          ((λ ext, ("Extension:" +:+ ext,
                    repo_info ("mediawiki/extensions/" +:+ ext)))
             <$> extdist_extensions data) repos in
        let repos :=
          <["VisualEditor core" := repo_info "VisualEditor/VisualEditor"]> repos in
        entries ← parse_gitmodules nonwmf_extensions;
        mret (set_items entries repos)
    end
  else mret repos.

Definition rule_skins (fl : flag → bool) (data : extdistrepos) : rule := λ repos,
  if fl skins then
    let repos := set_items
      ((λ skin, ("Skin:" +:+ skin, repo_info ("mediawiki/skins/" +:+ skin)))
         <$> extdist_skins data) repos in
    entries ← parse_gitmodules nonwmf_skins;
    mret (set_items entries repos)
  else mret repos.

Definition rule_puppet (fl : flag → bool) : rule := λ repos,
  if fl puppet then
    mret (set_items
      [ ("Wikimedia Puppet", repo_info "operations/puppet");
        ("labs/private", repo_info "labs/private") ] repos)
  else mret repos.

Definition rule_puppet_or_wmcs (fl : flag → bool) : rule := λ repos,
  if fl puppet || fl wmcs then
    mret (set_items
      [ ("cloud/instance-puppet", repo_info "cloud/instance-puppet");
        (* instance-puppet for the codfw1dev testing deployment *)
        ("cloud/instance-puppet-dev", repo_info "cloud/instance-puppet-dev") ]
      repos)
  else mret repos.

Definition rule_operations (fl : flag → bool) : rule := λ repos,
  if fl operations then
    mret (set_items
      [ ("Wikimedia DNS", repo_info "operations/dns");
        (* Special Netbox repo *)
        ("netbox DNS", phab_repo "netbox-exported-dns");
        ("Wikimedia MediaWiki config", repo_info "operations/mediawiki-config");
        ("scap", repo_info "mediawiki/tools/scap");
        (* CI config T217716 *)
        ("Wikimedia continuous integration config", repo_info "integration/config");
        ("Blubber", repo_info "blubber");
        ("pipelinelib", repo_info "integration/pipelinelib");
        ("MediaWiki Vagrant", repo_info "mediawiki/vagrant");
        ("operations/cookbooks", repo_info "operations/cookbooks");
        ("operations/deployment-charts", repo_info "operations/deployment-charts");
        ("operations/software", repo_info "operations/software");
        ("operations/software/conftool", repo_info "operations/software/conftool");
        ("operations/software/spicerack", repo_info "operations/software/spicerack");
        ("operations/software/purged", repo_info "operations/software/purged");
        ("performance/arc-lamp", repo_info "performance/arc-lamp");
        ("performance/asoranking", repo_info "performance/asoranking");
        ("performance/bttostatsv", repo_info "performance/bttostatsv");
        ("performance/coal", repo_info "performance/coal");
        ("performance/docroot", repo_info "performance/docroot");
        ("performance/fresnel", repo_info "performance/fresnel");
        ("performance/mobile-synthetic-monitoring-tests",
         repo_info "performance/mobile-synthetic-monitoring-tests");
        ("performance/navtiming", repo_info "performance/navtiming");
        ("performance/synthetic-monitoring-tests",
         repo_info "performance/synthetic-monitoring-tests");
        ("performance/WikimediaDebug", repo_info "performance/WikimediaDebug") ]
      repos)
  else mret repos.

Definition rule_armchairgm (fl : flag → bool) : rule := λ repos,
  if fl armchairgm
  then mret (<["ArmchairGM" := gh_repo_default "mary-kate/ArmchairGM"]> repos)
  else mret repos.

Definition rule_twn (fl : flag → bool) : rule := λ repos,
  if fl twn
  then mret (<["translatewiki.net" := repo_info "translatewiki"]> repos)
  else mret repos.

Definition ms_repos : list string :=
  ["jquery.uls"; "jquery.ime"; "jquery.webfonts"; "jquery.i18n"; "language-data"].

Definition rule_milkshake (fl : flag → bool) : rule := λ repos,
  if fl milkshake then
    mret (set_items
      ((λ ms_repo, (ms_repo, gh_repo_default ("wikimedia/" +:+ ms_repo)))
         <$> ms_repos) repos)
  else mret repos.

Definition rule_bundled (fl : flag → bool) : rule := λ repos,
  if fl bundled then
    names ← bundled_repos;
    mret (set_items ((λ repo_name, (repo_name, repo_info repo_name)) <$> names)
                    repos)
  else mret repos.

Definition rule_wikimedia (fl : flag → bool) : rule := λ repos,
  if fl wikimedia then
    names ← wikimedia_deployed_repos;
    let repos :=
      set_items ((λ repo_name, (repo_name, repo_info repo_name)) <$> names)
                repos in
    mret (set_items
      [ (* Also mw-config (T214341) *)
        ("Wikimedia MediaWiki config", repo_info "operations/mediawiki-config");
        ("WikimediaDebug", repo_info "performance/WikimediaDebug") ] repos)
  else mret repos.

Definition rule_vendor (fl : flag → bool) : rule := λ repos,
  if fl vendor
  then mret (<["mediawiki/vendor" := repo_info "mediawiki/vendor"]> repos)
  else mret repos.

Definition rule_services (fl : flag → bool) : rule := λ repos,
  if fl services then
    listed ← gerrit_prefix_list "mediawiki/services/";
    (* conf['repos'].update(listed) *)
    let repos := listed ∪ repos in
    mret (set_items
      [ ("mwaddlink", repo_info "research/mwaddlink");
        ("Wikidata Query GUI", repo_info "wikidata/query/gui");
        ("Wikidata Query RDF", repo_info "wikidata/query/rdf") ] repos)
  else mret repos.

Definition rule_libs (fl : flag → bool) : rule := λ repos,
  if fl libs then
    listed ← gerrit_prefix_list "mediawiki/libs/";
    let repos := listed ∪ repos in
    mret (set_items
      [ ("AhoCorasick", repo_info "AhoCorasick");
        ("cdb", repo_info "cdb");
        ("CLDRPluralRuleParser", repo_info "CLDRPluralRuleParser");
        ("HtmlFormatter", repo_info "HtmlFormatter");
        ("IPSet", repo_info "IPSet");
        ("RelPath", repo_info "RelPath");
        ("RunningStat", repo_info "RunningStat");
        ("WrappedString", repo_info "WrappedString");
        ("MediaWiki CodeSniffer", repo_info "mediawiki/tools/codesniffer");
        ("MediaWiki Phan", repo_info "mediawiki/tools/phan");
        ("SecurityCheckPlugin", repo_info "mediawiki/tools/phan/SecurityCheckPlugin");
        ("Purtle", repo_info "purtle");
        ("wvui", repo_info "wvui");
        ("codex", repo_info "design/codex");
        (* Wikibase libraries *)
        ("WikibaseDataModel", gh_repo_default "wmde/WikibaseDataModel");
        ("WikibaseDataModelSerialization",
         gh_repo_default "wmde/WikibaseDataModelSerialization");
        ("WikibaseDataModelServices", gh_repo_default "wmde/WikibaseDataModelServices");
        ("WikibaseInternalSerialization",
         gh_repo_default "wmde/WikibaseInternalSerialization");
        ("wikibase-termbox", repo_info "wikibase/termbox");
        ("wikibase-vuejs-components", repo_info "wikibase/vuejs-components");
        ("WikibaseDataValuesValueView", repo_info "data-values/value-view");
        ("WikibaseJavascriptAPI", repo_info "wikibase/javascript-api");
        ("WikibaseDataValuesJavaScript", gh_repo_default "wmde/DataValuesJavaScript");
        ("WikibaseSerializationJavaScript",
         gh_repo_default "wmde/WikibaseSerializationJavaScript");
        ("WikibaseDataModelJavaScript",
         gh_repo_default "wmde/WikibaseDataModelJavaScript") ] repos)
  else mret repos.

Definition rule_analytics (fl : flag → bool) : rule := λ repos,
  if fl analytics then
    listed ← gerrit_prefix_list "analytics/";
    mret (listed ∪ repos)
  else mret repos.

Definition rule_schemas (fl : flag → bool) : rule := λ repos,
  if fl schemas then
    (* schemas/event/ requested in T275705 *)
    listed ← gerrit_prefix_list "schemas/event/";
    mret (listed ∪ repos)
  else mret repos.

Definition rule_shouthow (fl : flag → bool) : rule := λ repos,
  if fl shouthow
  then mret (<["ShoutHow" := gh_repo "ashley/ShoutHow" "git.legoktm.com"]> repos)
  else mret repos.

Definition rule_wmcs (fl : flag → bool) : rule := λ repos,
  if fl wmcs then
    (* toolforge infra *)
    tools ← gerrit_prefix_list "operations/software/tools-";
    let repos := tools ∪ repos in
    toolforge ← gerrit_prefix_list "cloud/toolforge/";
    let repos := toolforge ∪ repos in
    (* custom horizon panels, but not upstream code *)
    horizon ← gerrit_prefix_list "openstack/horizon/wmf-";
    mret (horizon ∪ repos)
  else mret repos.

(** The rules above the line [data = get_extdist_repos()] and the rules
    below it, in the order of the source. *)
Definition rules_before_listing (fl : flag → bool) : list rule :=
  [ rule_core fl; rule_pywikibot fl; rule_ooui fl ].

Definition rules_after_listing (fl : flag → bool) (data : extdistrepos)
    : list rule :=
  [ rule_exts fl data; rule_skins fl data; rule_puppet fl;
    rule_puppet_or_wmcs fl; rule_operations fl; rule_armchairgm fl;
    rule_twn fl; rule_milkshake fl; rule_bundled fl; rule_wikimedia fl;
    rule_vendor fl; rule_services fl; rule_libs fl; rule_analytics fl;
    rule_schemas fl; rule_shouthow fl; rule_wmcs fl ].

Fixpoint run_rules (rules : list rule) (repos : gmap string repo)
    : M (gmap string repo) :=
  match rules with
  | [] => mret repos
  | r :: rules' => repos' ← r repos; run_rules rules' repos'
  end.

(** Lines 177 to 374 of [make_conf]: the mapping [conf['repos']]. *)
Definition build_repos (fl : flag → bool) : M (gmap string repo) :=
  repos ← run_rules (rules_before_listing fl) ∅;
  data ← get_extdist_repos;
  run_rules (rules_after_listing fl data) repos.

(** *** Writing the configuration and restarting *)

(** [subprocess.check_call(cmd)] *)
Definition check_call (cmd : list string) : M unit :=
  λ w, let code := systemctl E (length (sys_log w)) cmd in
       if Z.eqb code 0 then (Ok tt, log_command cmd w)
       else (Raise (CalledProcessError cmd code), log_command cmd w).

Definition is_CalledProcessError (e : exn) : bool :=
  match e with
  | CalledProcessError _ _ => true
  | _ => false
  end.

(** Lines 376 to 401 of [make_conf]. *)
Definition publish (name : string) (args : arguments) (c : conf) : M unit :=
  let dirname := dirname_of name in
  let directory := directory_of name in
  w ← get_world;
  (if bool_decide (directory ∈ dirs w) then mret tt
   else modify (set_dirs ({[directory]} ∪ dirs w)));;
  let dest := dest_of name in
  w ← get_world;
  previous ← match files w !! dest with
             | Some loaded => mret (Some loaded)
             | None =>
                 if bool_decide (dest ∈ unreadable w)
                 then raise (UnreadableConfig dest)
                 else mret None
             end;
  (* Write the new config always, in case names or other stuff changed *)
  modify (write_file dest c);;
  if restart args then
    if has_changed previous c then
      try_except (check_call ["systemctl"; "status"; dirname])
        is_CalledProcessError
        (mret tt)
        (λ _, check_call ["systemctl"; "restart"; dirname])
    else mret tt
  else mret tt.

Definition make_conf (name : string) (args : arguments) (on : list flag)
    : M unit :=
  repos ← build_repos (enabled on);
  publish name args (conf_of repos).

(** *** The profiles of [main] *)

Definition profiles : list (string * list flag) :=
  [ (* "Search" profile should include everything unless there's a good
       reason *)
    ("search", [core; exts; skins; ooui; operations; puppet; twn; pywikibot;
                services; libs; analytics; wmcs; schemas]);
    ("core", [core]);
    ("pywikibot", [pywikibot]);
    ("extensions", [exts]);
    ("skins", [skins]);
    ("things", [exts; skins]);
    ("ooui", [ooui]);
    ("operations", [operations; puppet]);
    ("armchairgm", [armchairgm]);
    ("milkshake", [milkshake]);
    ("bundled", [core; bundled; vendor]);
    ("deployed", [core; wikimedia; vendor; services]);
    ("services", [services]);
    ("libraries", [ooui; milkshake; libs]);
    ("analytics", [analytics]);
    ("wmcs", [wmcs]);
    ("puppet", [puppet]);
    ("shouthow", [shouthow]) ].

(** The calls of [make_conf] one after the other: an exception raised by
    one of them leaves the sequence. *)
Fixpoint run_profiles (args : arguments) (ps : list (string * list flag))
    : M unit :=
  match ps with
  | [] => mret tt
  | p :: ps' => make_conf p.1 args p.2;; run_profiles args ps'
  end.

Definition main (args : arguments) : M unit := run_profiles args profiles.

End Program.

(** The table behind the chain of tests of [parse_gitmodules]: each known
    host substring, in the order of the tests, with either the prefixes
    removed to obtain the name and the adapter applied to it, or the mark
    of a host that is known and passed over. *)
Inductive host_rule :=
  | Adapt (prefixes : list string) (adapter : string → repo)
  | Unsupported.

Definition known_hosts : list (string * host_rule) :=
  [ ("github.com", Adapt ["git@github.com:"; "https://github.com/"] gh_repo_default);
    ("bitbucket.org", Adapt ["https://bitbucket.org/"] bitbucket_repo);
    ("gitlab.com", Adapt ["https://gitlab.com/"] gitlab_repo);
    ("invent.kde.org",
     Adapt ["https://invent.kde.org/"] (λ name, gh_repo name "invent.kde.org"));
    ("phabricator.nichework.com", Unsupported) ].

Definition strip_git (url0 : string) : string :=
  if PyStr.endswith url0 ".git" then PyStr.drop_last 4 url0 else url0.

(** The first entry of a table whose host substring occurs in [url]. *)
Fixpoint first_match (table : list (string * host_rule)) (url : string)
    : option host_rule :=
  match table with
  | [] => None
  | (host, r) :: table' =>
      if PyStr.contains host url then Some r else first_match table' url
  end.

Inductive outcome :=
  | Dispatch (name : string) (descriptor : repo)
  | Skip
  | Unknown (url : string).

(** The classification of a manifest entry as the table states it. *)
Definition classification (url0 : string) : outcome :=
  let url := strip_git url0 in
  match first_match known_hosts url with
  | Some (Adapt prefixes adapter) =>
      let name := foldl (λ s prefix, PyStr.replace prefix "" s) url prefixes in
      Dispatch name (adapter name)
  | Some Unsupported => Skip
  | None => Unknown url
  end.

(** The result of [classify] that an outcome stands for. *)
Definition outcome_result (o : outcome) : result (option (string * repo)) :=
  match o with
  | Dispatch name descriptor => Ok (Some (name, descriptor))
  | Skip => Ok None
  | Unknown url => Raise (RuntimeError ("Unsure how to handle URL: " +:+ url))
  end.

(** The manifest of the scenario: one section [foo] with one [url]. *)
Definition manifest_foo : string :=
  "[foo]" +:+ String "010" "url = https://github.com/org/repo.git" +:+ String "010" "".

(** The mapping of the previous configuration, empty when there is none. *)
Definition previous_repos (previous : option conf) : gmap string repo :=
  match previous with
  | Some loaded => repos loaded
  | None => ∅
  end.

(** The [systemctl] commands of [make_conf] for a profile. *)
Definition status_cmd (name : string) : list string :=
  ["systemctl"; "status"; dirname_of name].
Definition restart_cmd (name : string) : list string :=
  ["systemctl"; "restart"; dirname_of name].

(** The commands run between the state [w] and a later state [w'], the
    latest first. *)
Definition issued (w w' : world) : list (list string) :=
  take (length (sys_log w') - length (sys_log w)) (sys_log w').

(** The state after the directory check of [make_conf], and the state
    after its write. *)
Definition with_directory (name : string) (w : world) : world :=
  if bool_decide (directory_of name ∈ dirs w) then w
  else set_dirs ({[directory_of name]} ∪ dirs w) w.

Definition written (name : string) (c : conf) (w : world) : world :=
  write_file (dest_of name) c (with_directory name w).

(** The file at the destination of a profile is absent or loads. *)
Definition loads (name : string) (w : world) : Prop :=
  files w !! dest_of name = None → dest_of name ∉ unreadable w.

(** A computation [m] respects a relation [R] on states when every run of
    [m], whether it returns or raises, ends in a state related to the one it
    started in. *)
Definition respects (R : relation world) {A} (m : M A) : Prop :=
  ∀ w, R w (m w).2.

(** What building a mapping may change: it issues requests and fills the
    caches, and leaves the files, the directories and the commands alone. *)
Definition build_frame (w w' : world) : Prop :=
  files w' = files w ∧ dirs w' = dirs w ∧ sys_log w' = sys_log w ∧
  ∃ later, net_log w' = (later ++ net_log w)%list.

(** Files are never removed. *)
Definition files_kept (w w' : world) : Prop :=
  ∀ path, is_Some (files w !! path) → is_Some (files w' !! path).

(** Only the files at the given paths may change. *)
Definition files_frame (paths : list string) (w w' : world) : Prop :=
  ∀ path, path ∉ paths → files w' !! path = files w !! path.

(** A rule overwrites: what it returns for a mapping is the mapping it
    returns for the empty mapping, laid over the given one. *)
Definition overwrites (r : rule) : Prop :=
  ∀ repos w,
    r repos w =
      match r ∅ w with
      | (Ok set_by_rule, w') => (Ok (set_by_rule ∪ repos), w')
      | (Raise e, w') => (Raise e, w')
      end.

(** The entries that each rule of a list sets, rule by rule, when the
    rules run one after the other from the state [w]; the list stops at a
    rule that raises. *)
Fixpoint rule_writes (rules : list rule) (w : world) : list (gmap string repo) :=
  match rules with
  | [] => []
  | r :: rules' =>
      match r ∅ w with
      | (Ok set_by_rule, w') => set_by_rule :: rule_writes rules' w'
      | (Raise _, _) => []
      end
  end.

(** The same for the rules of [make_conf], in the order of the source: the
    three rules above the query of the listing, then the seventeen below
    it. *)
Definition build_writes (E : environment) (fl : flag → bool) (w : world)
    : list (gmap string repo) :=
  (rule_writes (rules_before_listing fl) w ++
   match get_extdist_repos E w with
   | (Ok data, w1) => rule_writes (rules_after_listing E fl data) w1
   | (Raise _, _) => []
   end)%list.

(** The mapping after the writes of the rules, the first rule first. *)
Definition apply_writes (writes : list (gmap string repo))
    (repos : gmap string repo) : gmap string repo :=
  foldl (λ acc set_by_rule, set_by_rule ∪ acc) repos writes.

(** The request of [_settings_yaml]. *)
Definition settings_request : request :=
  ReqGerritFile "mediawiki/tools/release" "make-release/settings.yaml".

(** The number of times a request was issued. *)
Definition times_requested (req : request) (w : world) : nat :=
  length (filter (λ r, r = req) (net_log w)).

(** The queries behind [functools.lru_cache] were each issued at most
    once. *)
Definition at_most_once (w : world) : Prop :=
  (times_requested ReqExtdistrepos w ≤ 1)%nat ∧
  (times_requested settings_request w ≤ 1)%nat ∧
  ∀ url, (times_requested (ReqGet url) w ≤ 1)%nat.

(** What holds between two calls in a run: a cached query was issued at
    most once and not at all while its result is not stored, and the table
    of [parse_gitmodules] holds each of the two manifests at most once and
    nothing else. *)
Definition memo_inv (w : world) : Prop :=
  at_most_once w ∧
  (extdist_cache w = None → times_requested ReqExtdistrepos w = 0%nat) ∧
  (settings_cache w = None → times_requested settings_request w = 0%nat) ∧
  (∀ url, lru_get url (gitmodules_cache w) = None →
          times_requested (ReqGet url) w = 0%nat) ∧
  NoDup (gitmodules_cache w).*1 ∧
  (∀ url, url ∈ (gitmodules_cache w).*1 →
          url ∈ [nonwmf_extensions; nonwmf_skins]).

(** A computation keeps the queries memoized: started where [memo_inv]
    holds, it returns where [memo_inv] holds, or raises where the cached
    queries were still issued at most once. *)
Definition memoizes {A} (m : M A) : Prop :=
  ∀ w, memo_inv w →
       match m w with
       | (Ok _, w') => memo_inv w'
       | (Raise _, w') => at_most_once w'
       end.

(** ** Sample inputs *)

(** A manifest with a supported entry, an entry on the passed-over host and
    an entry on an unknown host, and an environment that serves it. *)
Definition manifest_mixed : string :=
  "[a]" +:+ String "010" "url = https://gitlab.com/g/p.git" +:+ String "010"
  ("[b]" +:+ String "010" "url = https://phabricator.nichework.com/diffusion/X" +:+ String "010"
  ("[c]" +:+ String "010" "url = https://example.org/x/y.git" +:+ String "010" "")).

Definition env_serving (text : string) : environment :=
  {| extdistrepos_api := λ _, None;
     raw_file := λ _ _, Some text;
     gerrit_file_yaml := λ _ _ _, None;
     gerrit_projects := λ _ _, None;
     systemctl := λ _ _, 0 |}.

(** An environment without network in which [systemctl status] exits with
    [code] and every other command succeeds. *)
Definition env_status (code : Z) : environment :=
  {| extdistrepos_api := λ _, None;
     raw_file := λ _ _, None;
     gerrit_file_yaml := λ _ _ _, None;
     gerrit_projects := λ _ _, None;
     systemctl := λ _ cmd,
       match cmd with
       | [_; "status"; _] => code
       | _ => 0
       end |}.

Definition restart_on : arguments := {| restart := true |}.
Definition restart_off : arguments := {| restart := false |}.

Definition conf_core : conf :=
  conf_of {[ "MediaWiki core" := repo_info "mediawiki/core" ]}.

(** A manifest that names a repository that the [vendor] rule also sets. *)
Definition manifest_vendor : string :=
  "[v]" +:+ String "010" "url = https://github.com/mediawiki/vendor.git" +:+ String "010" "".

(** An environment that answers every query: the listing has the given
    extensions and skins, every manifest is [text], the settings document
    has the two bundles, every prefix has one active and one read-only
    project, and every command succeeds. *)
Definition env_all (exts skins : list string) (text : string) : environment :=
  {| extdistrepos_api := λ _,
       Some {| extdist_extensions := exts; extdist_skins := skins |};
     raw_file := λ _ _, Some text;
     gerrit_file_yaml := λ _ _ _,
       Some {[ "bundles" := {[ "base" := ["mediawiki/extensions/Cite"];
                               "wmf_core" := ["mediawiki/extensions/Echo"] ]} ]};
     gerrit_projects := λ _ prefix,
       Some {[ prefix +:+ "a" := "ACTIVE"; prefix +:+ "b" := "READ_ONLY" ]};
     systemctl := λ _ _, 0 |}.

(** The same environment without the settings document: its fetch fails. *)
Definition env_no_settings : environment :=
  {| extdistrepos_api := extdistrepos_api (env_all ["Cite"] ["Vector"] manifest_foo);
     raw_file := raw_file (env_all ["Cite"] ["Vector"] manifest_foo);
     gerrit_file_yaml := λ _ _ _, None;
     gerrit_projects := gerrit_projects (env_all ["Cite"] ["Vector"] manifest_foo);
     systemctl := λ _ _, 0 |}.

(** An environment in which the projects under a prefix change during the
    run: the first twelve requests see the project [old], the later ones
    the project [new]. *)
Definition env_moving : environment :=
  {| extdistrepos_api := extdistrepos_api (env_all ["Cite"] ["Vector"] manifest_foo);
     raw_file := raw_file (env_all ["Cite"] ["Vector"] manifest_foo);
     gerrit_file_yaml := gerrit_file_yaml (env_all ["Cite"] ["Vector"] manifest_foo);
     gerrit_projects := λ n prefix,
       Some {[ prefix +:+ (if (n <? 12)%nat then "old" else "new") := "ACTIVE" ]};
     systemctl := λ _ _, 0 |}.

(** The profiles of [main] before [bundled], and those after it. *)
Definition profiles_before_bundled : list (string * list flag) := take 10 profiles.
Definition profiles_after_bundled : list (string * list flag) := drop 11 profiles.

(** The run of [main] in which the settings document is out of reach. *)
Definition failed_run : result unit * world :=
  main env_no_settings restart_off (fresh_world ∅ ∅).

(** The run of [main] in which the projects change while it runs. *)
Definition moving_run : result unit * world :=
  main env_moving restart_off (fresh_world ∅ ∅).

(** The mapping written for a profile, empty when none was written. *)
Definition written_repos (name : string) (w : world) : gmap string repo :=
  previous_repos (files w !! dest_of name).

(** The call of [make_conf] for the profile [skins] when the listing has
    an extension and no skin, and the call for the profile [extensions]
    when it has a skin and no extension. *)
Definition skins_without_skins : result unit * world :=
  make_conf (env_all ["Cite"] [] manifest_foo) "skins" restart_off [skins]
            (fresh_world ∅ ∅).

Definition extensions_without_extensions : result unit * world :=
  make_conf (env_all [] ["Vector"] manifest_foo) "extensions" restart_off [exts]
            (fresh_world ∅ ∅).

(** ** Further definitions for the properties of the other functions *)

(** What every adapter gives a descriptor: a URL that starts with
    [https://] and the poll interval of 90 minutes. *)
Definition well_formed (d : repo) : Prop :=
  String.prefix "https://" (url d) = true ∧ ms_between_poll d = 5400000.

(** The lists stored for [parse_gitmodules] hold well-formed
    descriptors. *)
Definition cache_well_formed (w : world) : Prop :=
  Forall (λ kv : string * list (string * repo),
            Forall (λ entry, well_formed entry.2) kv.2)
         (gitmodules_cache w).

(** A computation keeps the stored lists well formed and returns, when it
    returns, a value with the property [P]. *)
Definition returns_with {A} (P : A → Prop) (m : M A) : Prop :=
  ∀ w, cache_well_formed w →
       cache_well_formed (m w).2 ∧ ∀ a, (m w).1 = Ok a → P a.

(** The entry that the loop of [parse_gitmodules] appends for a section,
    if it appends one. *)
Definition entry_of (config : ConfigParser.config) (section : string)
    : option (string * repo) :=
  match section_url config section with
  | Ok url0 =>
      match classification url0 with
      | Dispatch name descriptor => Some (name, descriptor)
      | _ => None
      end
  | Raise _ => None
  end.

(** A section that the loop of [parse_gitmodules] gets past: it has a
    [url] and its host is known. *)
Definition resolvable (config : ConfigParser.config) (section : string) : Prop :=
  ∃ url0, section_url config section = Ok url0 ∧
          ∀ u, classification url0 ≠ Unknown u.

(** The flags whose rules query nothing but the listing. *)
Definition static_flags : list flag :=
  [core; pywikibot; ooui; puppet; operations; armchairgm; twn; milkshake;
   vendor; shouthow].

(** Two rules that both return the same mapping computed from the given
    one, without touching the state. *)
Definition same_fixed (r r' : rule) : Prop :=
  ∃ f : gmap string repo → gmap string repo,
    ∀ repos w w', r repos w = (Ok (f repos), w) ∧ r' repos w' = (Ok (f repos), w').

(** An environment whose settings document has the bundle [base] and no
    bundle [wmf_core]. *)
Definition env_base_only : environment :=
  {| extdistrepos_api := λ _, None;
     raw_file := λ _ _, None;
     gerrit_file_yaml := λ _ _ _,
       Some {[ "bundles" := {[ "base" := ["mediawiki/core"] ]} ]};
     gerrit_projects := λ _ _, None;
     systemctl := λ _ _, 0 |}.

(** An environment without network in which the status command succeeds
    and the restart command exits with 1. *)
Definition env_restart_fails : environment :=
  {| extdistrepos_api := λ _, None;
     raw_file := λ _ _, None;
     gerrit_file_yaml := λ _ _ _, None;
     gerrit_projects := λ _ _, None;
     systemctl := λ _ cmd,
       match cmd with
       | [_; "restart"; _] => 1
       | _ => 0
       end |}.

(** A manifest whose entries are all on known hosts: a supported one, the
    passed-over one and another supported one. *)
Definition manifest_known : string :=
  "[a]" +:+ String "010" "url = https://gitlab.com/g/p.git" +:+ String "010"
  ("[b]" +:+ String "010" "url = https://phabricator.nichework.com/diffusion/X" +:+ String "010"
  ("[c]" +:+ String "010" "url = git@github.com:org/repo.git" +:+ String "010" "")).

(** A manifest with interpolated values, and what it parses to. *)
Definition manifest_interpolated : string :=
  "[a]" +:+ String "010" "url = https://github.com/org/a%%b.git" +:+ String "010"
  ("[b]" +:+ String "010" "path = extensions/B" +:+ String "010"
  ("url = https://gitlab.com/team/%(path)s" +:+ String "010" "")).

Definition config_interpolated : ConfigParser.config :=
  [ ("a", [("url", "https://github.com/org/a%%b.git")]);
    ("b", [("path", "extensions/B"); ("url", "https://gitlab.com/team/%(path)s")]) ].

(** A parsed manifest whose second section has no [url]. *)
Definition config_without_url : ConfigParser.config :=
  [ ("a", [("url", "https://gitlab.com/g/p.git")]);
    ("b", [("path", "extensions/B")]);
    ("c", [("url", "https://github.com/org/repo.git")]) ].

(** * Properties *)

(** ** The monad *)

(** Decides a closed statement by evaluation. *)
Ltac by_computation := apply (bool_decide_unpack _); vm_compute; reflexivity.

Global Arguments dest_of : simpl never.
Global Arguments directory_of : simpl never.

Ltac unfold_M :=
  unfold mbind, M_bind, bind, mret, M_ret, ret, raise, get_world, modify,
    try_except.

Lemma bind_ok {A B} (m : M A) (k : A → M B) w a w' :
  m w = (Ok a, w') → (m ≫= k) w = k a w'.
Proof. intros H. unfold_M. by rewrite H. Qed.

Lemma bind_raise {A B} (m : M A) (k : A → M B) w e w' :
  m w = (Raise e, w') → (m ≫= k) w = (Raise e, w').
Proof. intros H. unfold_M. by rewrite H. Qed.

Lemma bind_inv_ok {A B} (m : M A) (k : A → M B) w b w2 :
  (m ≫= k) w = (Ok b, w2) → ∃ a w1, m w = (Ok a, w1) ∧ k a w1 = (Ok b, w2).
Proof.
  unfold_M. destruct (m w) as [[a|e] w1]; intros H; [eauto | discriminate].
Qed.

Lemma ok_eq_inv {A} (a b : A) (w w' : world) :
  (Ok a, w) = (Ok b, w') → a = b ∧ w = w'.
Proof. intros H. by injection H. Qed.

(** ** The manifest resolver *)

Lemma classify_classification url0 :
  classify url0 = outcome_result (classification url0).
Proof.
  unfold classify, classification. fold (strip_git url0).
  generalize (strip_git url0) as u. intros u. cbn [known_hosts first_match].
  repeat (destruct (PyStr.contains _ u); [reflexivity |]).
  reflexivity.
Qed.

Lemma resolve_sections_unknown config sections acc section url0 u :
  section ∈ sections →
  section_url config section = Ok url0 →
  classification url0 = Unknown u →
  ∃ e, resolve_sections config sections acc = Raise e.
Proof.
  intros Hin Hurl Hcl. revert acc.
  induction sections as [|s rest IH]; intros acc; [by apply not_elem_of_nil in Hin |].
  apply elem_of_cons in Hin as [<- | Hin].
  - cbn [resolve_sections]. rewrite Hurl, classify_classification, Hcl. cbn. eauto.
  - cbn [resolve_sections]. destruct (section_url config s) as [v|e]; [| eauto].
    destruct (classify v) as [[entry|]|e]; eauto.
Qed.

Lemma resolve_sections_first_unknown config pre section post acc url0 u :
  (∀ s, s ∈ pre → ∃ v, section_url config s = Ok v ∧
                       ∀ u', classification v ≠ Unknown u') →
  section_url config section = Ok url0 →
  classification url0 = Unknown u →
  resolve_sections config (pre ++ section :: post) acc
  = Raise (RuntimeError ("Unsure how to handle URL: " +:+ u)).
Proof.
  intros Hpre Hurl Hcl. revert acc.
  induction pre as [|s pre IH]; intros acc.
  - cbn [app resolve_sections]. by rewrite Hurl, classify_classification, Hcl.
  - cbn [app resolve_sections].
    destruct (Hpre s) as (v & Hv & Hk); [by left |].
    rewrite Hv, classify_classification.
    destruct (classification v) as [n d| |u'] eqn:Hc; cbn.
    + apply IH. intros s' Hs'. apply Hpre. by right.
    + apply IH. intros s' Hs'. apply Hpre. by right.
    + by destruct (Hk u').
Qed.

Lemma length_append (s t : string) :
  String.length (s +:+ t) = (String.length s + String.length t)%nat.
Proof. induction s as [|c s IH]; simpl; [done | by f_equal]. Qed.

Lemma substring_append_r (s t : string) :
  String.substring (String.length s) (String.length t) (s +:+ t) = t.
Proof.
  induction s as [|c s IH]; simpl; [| done].
  induction t as [|c t IH]; simpl; [done | by f_equal].
Qed.

Lemma substring_append_l (s t : string) :
  String.substring 0 (String.length s) (s +:+ t) = s.
Proof.
  induction s as [|c s IH]; simpl; [by destruct t | by f_equal].
Qed.

(** A trailing [.git] is removed, and only that. *)
Lemma strip_git_suffix (s : string) : strip_git (s +:+ ".git") = s.
Proof.
  unfold strip_git, PyStr.endswith, PyStr.drop_last.
  rewrite length_append.
  replace (String.length s + String.length ".git" - String.length ".git")%nat
    with (String.length s) by lia.
  rewrite substring_append_r, String.eqb_refl, andb_true_r.
  change (String.length ".git") with 4%nat.
  replace (String.length s + 4 - 4)%nat with (String.length s) by lia.
  destruct (4 <=? String.length s + 4)%nat eqn:Hle.
  - apply substring_append_l.
  - apply Nat.leb_gt in Hle. lia.
Qed.

Lemma strip_git_other (s : string) :
  PyStr.endswith s ".git" = false → strip_git s = s.
Proof. intros H. unfold strip_git. by rewrite H. Qed.

Lemma parse_gitmodules_miss E url w text :
  lru_get url (gitmodules_cache w) = None →
  raw_file E (length (net_log w)) url = Some text →
  parse_gitmodules E url w =
    match resolve_manifest text with
    | Ok repos =>
        (Ok repos,
         set_gitmodules_cache (lru_put url repos (gitmodules_cache w))
                              (log_request (ReqGet url) w))
    | Raise e => (Raise e, log_request (ReqGet url) w)
    end.
Proof.
  intros Hmiss Hraw. unfold parse_gitmodules, parse_gitmodules_uncached, fetch.
  unfold_M. rewrite Hmiss, Hraw.
  by destruct (resolve_manifest text).
Qed.

Lemma resolve_sections_step config s sections acc :
  resolve_sections config (s :: sections) acc =
    match section_url config s with
    | Raise e => Raise e
    | Ok url0 =>
        match classification url0 with
        | Dispatch name d => resolve_sections config sections (acc ++ [(name, d)])%list
        | Skip => resolve_sections config sections acc
        | Unknown u => Raise (RuntimeError ("Unsure how to handle URL: " +:+ u))
        end
    end.
Proof.
  cbn [resolve_sections]. destruct (section_url config s) as [url0|e]; [| done].
  rewrite classify_classification. by destruct (classification url0).
Qed.

(** The loop returns exactly when every section resolves, and then
    returns the entries of the sections after the ones it started with. *)
Lemma resolve_sections_ok config sections acc repos :
  resolve_sections config sections acc = Ok repos ↔
  Forall (resolvable config) sections ∧
  repos = (acc ++ omap (entry_of config) sections)%list.
Proof.
  revert acc. induction sections as [|s sections IH]; intros acc.
  - cbn. rewrite app_nil_r. split.
    + intros [= <-]. by split.
    + by intros [_ ->].
  - rewrite resolve_sections_step, Forall_cons. cbn [omap list_omap].
    destruct (section_url config s) as [url0|e] eqn:Hurl.
    + destruct (classification url0) as [name d| |u] eqn:Hcl.
      * assert (entry_of config s = Some (name, d)) as ->
          by (unfold entry_of; by rewrite Hurl, Hcl).
        assert (resolvable config s) as Hres.
        { exists url0. split; [done |]. intros u Hu. congruence. }
        rewrite IH, <- (assoc_L (++)). cbn [app]. split.
        -- by intros [Hall ->].
        -- by intros [[_ Hall] ->].
      * assert (entry_of config s = None) as ->
          by (unfold entry_of; by rewrite Hurl, Hcl).
        assert (resolvable config s) as Hres.
        { exists url0. split; [done |]. intros u Hu. congruence. }
        rewrite IH. split.
        -- by intros [Hall ->].
        -- by intros [[_ Hall] ->].
      * split; [done |]. intros [[(v & Hv & Hk) _] _].
        rewrite Hurl in Hv. injection Hv as <-. by destruct (Hk u).
    + split; [done |]. intros [[(v & Hv & _) _] _]. by rewrite Hurl in Hv.
Qed.

(** C6.  Every manifest entry URL has its trailing [.git] removed and is
    then classified by the first host substring of the declared order that
    occurs in it.  The loop of the resolver goes by that classification:
    for a supported host it appends the name and the descriptor that the
    adapter of the host gives and goes on, for the host that is known and
    unsupported it goes on with the list as it is, and at the end of the
    sections it returns the list; so a manifest whose entries all resolve
    gives the entries of its supported sections in order, which
    [parse_gitmodules] returns and stores.  For a URL that matches no known
    host a [RuntimeError] carrying that URL is raised.  Such an entry makes
    the whole resolution raise, whatever the other entries are: the error
    is the one of the first such entry when the entries before it resolve,
    and [parse_gitmodules] then raises it and returns and stores no
    list. *)
Theorem manifest_classification_outcomes :
  (∀ s, strip_git (s +:+ ".git") = s) ∧
  (∀ url0, classify url0 = outcome_result (classification url0)) ∧
  (∀ config sections acc section url0 u,
     section ∈ sections →
     section_url config section = Ok url0 →
     classification url0 = Unknown u →
     ∃ e, resolve_sections config sections acc = Raise e) ∧
  (∀ config pre section post acc url0 u,
     (∀ s, s ∈ pre → ∃ v, section_url config s = Ok v ∧
                          ∀ u', classification v ≠ Unknown u') →
     section_url config section = Ok url0 →
     classification url0 = Unknown u →
     resolve_sections config (pre ++ section :: post) acc
     = Raise (RuntimeError ("Unsure how to handle URL: " +:+ u))) ∧
  (∀ E url w text config section url0 u,
     lru_get url (gitmodules_cache w) = None →
     raw_file E (length (net_log w)) url = Some text →
     ConfigParser.read_string text = Some config →
     section ∈ ConfigParser.sections config →
     section_url config section = Ok url0 →
     classification url0 = Unknown u →
     ∃ e, parse_gitmodules E url w = (Raise e, log_request (ReqGet url) w)) ∧
  (∀ config acc, resolve_sections config [] acc = Ok acc) ∧
  (∀ config section rest acc url0 name descriptor,
     section_url config section = Ok url0 →
     classification url0 = Dispatch name descriptor →
     resolve_sections config (section :: rest) acc
     = resolve_sections config rest (acc ++ [(name, descriptor)])%list) ∧
  (∀ config section rest acc url0,
     section_url config section = Ok url0 →
     classification url0 = Skip →
     resolve_sections config (section :: rest) acc
     = resolve_sections config rest acc) ∧
  (∀ config sections acc,
     Forall (resolvable config) sections →
     resolve_sections config sections acc
     = Ok (acc ++ omap (entry_of config) sections)%list) ∧
  (∀ E url w text config,
     lru_get url (gitmodules_cache w) = None →
     raw_file E (length (net_log w)) url = Some text →
     ConfigParser.read_string text = Some config →
     Forall (resolvable config) (ConfigParser.sections config) →
     let repos := omap (entry_of config) (ConfigParser.sections config) in
     parse_gitmodules E url w
     = (Ok repos,
        set_gitmodules_cache (lru_put url repos (gitmodules_cache w))
                             (log_request (ReqGet url) w))).
Proof.
  split; [exact strip_git_suffix |].
  split; [exact classify_classification |].
  split; [exact resolve_sections_unknown |].
  split; [exact resolve_sections_first_unknown |].
  split.
  { intros E url w text config section url0 u Hmiss Hraw Hread Hin Hurl Hcl.
    rewrite (parse_gitmodules_miss E url w text Hmiss Hraw).
    unfold resolve_manifest. rewrite Hread.
    destruct (resolve_sections_unknown config (ConfigParser.sections config) []
                section url0 u Hin Hurl Hcl) as [e He].
    rewrite He. eauto. }
  split; [reflexivity |].
  split.
  { intros config section rest acc url0 name descriptor Hurl Hcl.
    by rewrite resolve_sections_step, Hurl, Hcl. }
  split.
  { intros config section rest acc url0 Hurl Hcl.
    by rewrite resolve_sections_step, Hurl, Hcl. }
  split.
  { intros config sections acc Hall. by apply resolve_sections_ok. }
  intros E url w text config Hmiss Hraw Hread Hall repos.
  rewrite (parse_gitmodules_miss E url w text Hmiss Hraw).
  unfold resolve_manifest. rewrite Hread.
  assert (resolve_sections config (ConfigParser.sections config) [] = Ok repos) as ->
    by (by apply resolve_sections_ok).
  reflexivity.
Qed.

Lemma manifest_classification_outcomes_witness :
  classify "https://example.org/x/y.git"
  = Raise (RuntimeError "Unsure how to handle URL: https://example.org/x/y") ∧
  (∃ e, parse_gitmodules (env_serving manifest_mixed) nonwmf_skins (fresh_world ∅ ∅)
        = (Raise e, log_request (ReqGet nonwmf_skins) (fresh_world ∅ ∅))) ∧
  (parse_gitmodules (env_serving manifest_known) nonwmf_skins (fresh_world ∅ ∅)).1
  = Ok [("g/p", gitlab_repo "g/p"); ("org/repo", gh_repo_default "org/repo")].
Proof.
  destruct manifest_classification_outcomes
    as (_ & Hcl & _ & _ & Hparse & _ & _ & _ & _ & Hreturns).
  split; [| split].
  - rewrite Hcl. vm_compute. reflexivity.
  - apply (Hparse (env_serving manifest_mixed) nonwmf_skins (fresh_world ∅ ∅)
             manifest_mixed
             [("a", [("url", "https://gitlab.com/g/p.git")]);
              ("b", [("url", "https://phabricator.nichework.com/diffusion/X")]);
              ("c", [("url", "https://example.org/x/y.git")])]
             "c" "https://example.org/x/y.git" "https://example.org/x/y").
    + reflexivity.
    + reflexivity.
    + vm_compute. reflexivity.
    + vm_compute. set_solver.
    + vm_compute. reflexivity.
    + vm_compute. reflexivity.
  - rewrite (Hreturns (env_serving manifest_known) nonwmf_skins (fresh_world ∅ ∅)
               manifest_known
               [("a", [("url", "https://gitlab.com/g/p.git")]);
                ("b", [("url", "https://phabricator.nichework.com/diffusion/X")]);
                ("c", [("url", "git@github.com:org/repo.git")])]).
    + vm_compute. reflexivity.
    + reflexivity.
    + reflexivity.
    + vm_compute. reflexivity.
    + repeat (apply Forall_cons_2; [| ]); [| | | apply Forall_nil_2].
      * exists "https://gitlab.com/g/p.git". split; [reflexivity |].
        intros u. vm_compute. discriminate.
      * exists "https://phabricator.nichework.com/diffusion/X".
        split; [reflexivity |]. intros u. vm_compute. discriminate.
      * exists "git@github.com:org/repo.git". split; [reflexivity |].
        intros u. vm_compute. discriminate.
Defined.

(** C7.  The manifest made of the section [foo] with
    [url = https://github.com/org/repo.git] resolves to exactly one entry,
    named [org/repo], whose descriptor has the URL
    [https://github.com/org/repo], a poll interval of 5400000 milliseconds
    and no URL pattern; [parse_gitmodules] returns that list whenever the
    fetch of the manifest returns this text. *)
Theorem parse_gitmodules_foo E url w :
  lru_get url (gitmodules_cache w) = None →
  raw_file E (length (net_log w)) url = Some manifest_foo →
  resolve_manifest manifest_foo
  = Ok [("org/repo", {| url := "https://github.com/org/repo";
                        url_pattern_of := None;
                        ms_between_poll := 5400000 |})] ∧
  (parse_gitmodules E url w).1
  = Ok [("org/repo", {| url := "https://github.com/org/repo";
                        url_pattern_of := None;
                        ms_between_poll := 5400000 |})].
Proof.
  intros Hmiss Hraw.
  assert (resolve_manifest manifest_foo
          = Ok [("org/repo", {| url := "https://github.com/org/repo";
                                url_pattern_of := None;
                                ms_between_poll := 5400000 |})]) as Hres
    by (vm_compute; reflexivity).
  split; [exact Hres |].
  rewrite (parse_gitmodules_miss E url w manifest_foo Hmiss Hraw), Hres.
  reflexivity.
Qed.

Lemma parse_gitmodules_foo_witness :
  (parse_gitmodules (env_serving manifest_foo) nonwmf_extensions (fresh_world ∅ ∅)).1
  = Ok [("org/repo", {| url := "https://github.com/org/repo";
                        url_pattern_of := None;
                        ms_between_poll := 5400000 |})].
Proof.
  apply (parse_gitmodules_foo (env_serving manifest_foo) nonwmf_extensions
           (fresh_world ∅ ∅)); reflexivity.
Defined.

(** ** The change detector *)

Lemma elem_of_extract_urls (c : conf) (u : string) :
  u ∈ extract_urls c ↔ ∃ name d, repos c !! name = Some d ∧ url d = u.
Proof.
  unfold extract_urls. rewrite elem_of_map_img. split.
  - intros [name H]. rewrite lookup_fmap in H.
    destruct (repos c !! name) as [d|] eqn:Hd; [| discriminate].
    exists name, d. split; [done |]. by injection H.
  - intros (name & d & Hd & <-). exists name. by rewrite lookup_fmap, Hd.
Qed.

Lemma elem_of_previous_urls (previous : option conf) (u : string) :
  u ∈ previous_urls previous ↔
  ∃ name d, previous_repos previous !! name = Some d ∧ url d = u.
Proof.
  destruct previous as [loaded|]; cbn.
  - apply elem_of_extract_urls.
  - split; [set_solver |]. intros (name & d & H & _). by rewrite lookup_empty in H.
Qed.

Lemma has_changed_false (previous : option conf) (next : conf) :
  has_changed previous next = false ↔
  extract_urls next = previous_urls previous.
Proof.
  unfold has_changed. rewrite bool_decide_eq_false. split.
  - intros H. by destruct (decide (extract_urls next = previous_urls previous)).
  - intros H Hne. by apply Hne.
Qed.

Lemma has_changed_true (previous : option conf) (next : conf) :
  has_changed previous next = true ↔
  extract_urls next ≠ previous_urls previous.
Proof. unfold has_changed. by rewrite bool_decide_eq_true. Qed.

Lemma has_changed_witnessed (previous : option conf) (next : conf) (u : string) :
  ¬ (u ∈ extract_urls next ↔ u ∈ previous_urls previous) →
  has_changed previous next = true.
Proof. intros H. apply has_changed_true. intros Heq. apply H. by rewrite Heq. Qed.

(** C2.  [has_changed] is false exactly when the previous mapping (empty
    when there is no previous file) and the new mapping have the same set
    of URLs.  So it is false when the names of the previous mapping are
    renamed and every descriptor is kept; and it is true when the set
    gains a URL (an entry is added whose URL no previous entry has), loses
    one (an entry is removed whose URL no other entry has) or has one
    replaced (the URL of an entry becomes one that no previous entry has,
    or becomes another one while no other entry has the old one). *)
Theorem change_detection (previous : option conf) (next : conf) :
  (has_changed previous next = false ↔
   ∀ u, (∃ name d, previous_repos previous !! name = Some d ∧ url d = u) ↔
        (∃ name d, repos next !! name = Some d ∧ url d = u)) ∧
  (has_changed previous next = true ↔
   ¬ ∀ u, (∃ name d, previous_repos previous !! name = Some d ∧ url d = u) ↔
          (∃ name d, repos next !! name = Some d ∧ url d = u)) ∧
  (∀ rename : string → string,
     Inj (=) (=) rename →
     repos next = kmap rename (previous_repos previous) →
     has_changed previous next = false) ∧
  (∀ name d,
     repos next = <[name := d]> (previous_repos previous) →
     (∀ name' d', previous_repos previous !! name' = Some d' → url d' ≠ url d) →
     has_changed previous next = true) ∧
  (∀ name d,
     previous_repos previous !! name = Some d →
     repos next = delete name (previous_repos previous) →
     (∀ name' d', name' ≠ name → previous_repos previous !! name' = Some d' →
                  url d' ≠ url d) →
     has_changed previous next = true) ∧
  (∀ name d d',
     previous_repos previous !! name = Some d →
     repos next = <[name := d']> (previous_repos previous) →
     (∀ name' e, previous_repos previous !! name' = Some e → url e ≠ url d') ∨
     (url d' ≠ url d ∧
      ∀ name' e, name' ≠ name → previous_repos previous !! name' = Some e →
                 url e ≠ url d) →
     has_changed previous next = true).
Proof.
  assert (has_changed previous next = false ↔
          ∀ u, (∃ name d, previous_repos previous !! name = Some d ∧ url d = u) ↔
               (∃ name d, repos next !! name = Some d ∧ url d = u)) as Hiff.
  { rewrite has_changed_false. split.
    - intros Heq u. by rewrite <- elem_of_previous_urls, <- elem_of_extract_urls, Heq.
    - intros H. apply set_eq. intros u.
      by rewrite elem_of_previous_urls, elem_of_extract_urls, H. }
  split; [exact Hiff |].
  split.
  { rewrite <- Hiff. by destruct (has_changed previous next). }
  split.
  { intros rename Hinj Hnext. apply Hiff. intros u. rewrite Hnext. split.
    - intros (name & d & Hd & Hu). exists (rename name), d.
      by rewrite lookup_kmap.
    - intros (name & d & Hd & Hu).
      apply lookup_kmap_Some in Hd as (name' & -> & Hd); [| done]. eauto. }
  split.
  { intros name d Hnext Hfresh. apply (has_changed_witnessed _ _ (url d)).
    rewrite elem_of_previous_urls, elem_of_extract_urls. intros [Hto _].
    destruct Hto as (name' & d' & Hd' & Hu).
    - exists name, d. by rewrite Hnext, lookup_insert_eq.
    - by apply (Hfresh name' d'). }
  split.
  { intros name d Hd Hnext Hother. apply (has_changed_witnessed _ _ (url d)).
    rewrite elem_of_previous_urls, elem_of_extract_urls. intros [_ Hfrom].
    destruct Hfrom as (name' & d' & Hd' & Hu); [eauto |].
    rewrite Hnext in Hd'. apply lookup_delete_Some in Hd' as [Hne Hd'].
    by apply (Hother name' d'). }
  intros name d d' Hd Hnext [Hfresh | [Hne Hother]].
  - apply (has_changed_witnessed _ _ (url d')).
    rewrite elem_of_previous_urls, elem_of_extract_urls. intros [Hto _].
    destruct Hto as (name' & e & He & Hu).
    + exists name, d'. by rewrite Hnext, lookup_insert_eq.
    + by apply (Hfresh name' e).
  - apply (has_changed_witnessed _ _ (url d)).
    rewrite elem_of_previous_urls, elem_of_extract_urls. intros [_ Hfrom].
    destruct Hfrom as (name' & e & He & Hu); [eauto |].
    rewrite Hnext in He. destruct (decide (name = name')) as [<-|Hnn].
    + rewrite lookup_insert_eq in He. injection He as <-. done.
    + rewrite lookup_insert_ne in He; [| done]. by apply (Hother name' e).
Qed.

Lemma change_detection_witness :
  has_changed (Some (conf_of {[ "MediaWiki core" := repo_info "mediawiki/core" ]}))
              (conf_of {[ "xMediaWiki core" := repo_info "mediawiki/core" ]}) = false ∧
  has_changed None (conf_of {[ "core" := repo_info "mediawiki/core" ]}) = true.
Proof.
  split.
  - apply (proj1 (proj2 (proj2
      (change_detection
         (Some (conf_of {[ "MediaWiki core" := repo_info "mediawiki/core" ]}))
         (conf_of {[ "xMediaWiki core" := repo_info "mediawiki/core" ]}))))
      (String "x"%char)).
    + intros a b H. by injection H.
    + vm_compute. reflexivity.
  - apply (proj1 (proj2 (proj2 (proj2
      (change_detection None
         (conf_of {[ "core" := repo_info "mediawiki/core" ]})))))
      "core" (repo_info "mediawiki/core")).
    + vm_compute. reflexivity.
    + intros name' d' H. cbn in H. by rewrite lookup_empty in H.
Defined.

(** ** Writing and restarting *)

Lemma files_with_directory name w : files (with_directory name w) = files w.
Proof. unfold with_directory. by destruct (bool_decide _). Qed.

Lemma unreadable_with_directory name w :
  unreadable (with_directory name w) = unreadable w.
Proof. unfold with_directory. by destruct (bool_decide _). Qed.

Lemma sys_log_with_directory name w :
  sys_log (with_directory name w) = sys_log w.
Proof. unfold with_directory. by destruct (bool_decide _). Qed.

Lemma loads_dec name w : loads name w ∨ ¬ loads name w.
Proof.
  unfold loads. destruct (files w !! dest_of name) as [p|]; [by left |].
  destruct (decide (dest_of name ∈ unreadable w)) as [Hin | Hout].
  - right. intros H. by apply H.
  - by left.
Qed.

Lemma not_loads name w :
  ¬ loads name w ↔ files w !! dest_of name = None ∧ dest_of name ∈ unreadable w.
Proof.
  unfold loads. split.
  - intros H. destruct (files w !! dest_of name) as [p|]; [by destruct H |].
    split; [done |].
    destruct (decide (dest_of name ∈ unreadable w)); [done | by destruct H].
  - intros [Hnone Hin] H. by apply H.
Qed.

Lemma loads_Some name w previous :
  files w !! dest_of name = Some previous → loads name w.
Proof. intros H Hnone. congruence. Qed.

(** The previous file is in place and does not load: [publish] raises
    before the write, the directory being there by then. *)
Lemma publish_unreadable E name args c w :
  ¬ loads name w →
  publish E name args c w
  = (Raise (UnreadableConfig (dest_of name)), with_directory name w).
Proof.
  intros [Hnone Hin]%not_loads. unfold publish, with_directory. unfold_M.
  destruct (bool_decide (directory_of name ∈ dirs w));
    cbn [files unreadable set_dirs];
    by rewrite Hnone, (bool_decide_eq_true_2 _ Hin).
Qed.

Lemma publish_eq E name args c w :
  loads name w →
  publish E name args c w =
    if restart args && has_changed (files w !! dest_of name) c then
      if Z.eqb (systemctl E (length (sys_log w)) (status_cmd name)) 0 then
        check_call E (restart_cmd name) (log_command (status_cmd name) (written name c w))
      else (Ok tt, log_command (status_cmd name) (written name c w))
    else (Ok tt, written name c w).
Proof.
  intros Hloads.
  unfold publish, written, with_directory, check_call, status_cmd, restart_cmd.
  unfold_M.
  assert (files w !! dest_of name = None →
          bool_decide (dest_of name ∈ unreadable w) = false) as Hread.
  { intros Hnone. apply bool_decide_eq_false_2. by apply Hloads. }
  destruct (bool_decide (directory_of name ∈ dirs w));
    cbn [files unreadable set_dirs];
    destruct (files w !! dest_of name) as [previous|] eqn:Hprev;
    try rewrite (Hread eq_refl);
    (destruct (restart args); cbn [andb]; [| reflexivity]);
    (match goal with
     | |- context [has_changed ?p c] => destruct (has_changed p c)
     end; [| reflexivity]);
    cbn [sys_log write_file set_unreadable set_files set_dirs];
    destruct (Z.eqb (systemctl E (length (sys_log w))
                       ["systemctl"; "status"; dirname_of name]) 0);
    reflexivity.
Qed.

Lemma files_written name c w :
  files (written name c w) = <[dest_of name := c]> (files w).
Proof. unfold written. cbn. by rewrite files_with_directory. Qed.

Lemma sys_log_written name c w : sys_log (written name c w) = sys_log w.
Proof. unfold written. cbn. apply sys_log_with_directory. Qed.

Lemma issued_nil w w' : sys_log w' = sys_log w → issued w w' = [].
Proof. intros H. unfold issued. rewrite H, Nat.sub_diag. done. Qed.

Lemma issued_app w w' (l : list (list string)) :
  sys_log w' = (l ++ sys_log w)%list → issued w w' = l.
Proof.
  intros H. unfold issued. rewrite H, length_app.
  replace (length l + length (sys_log w) - length (sys_log w))%nat
    with (length l) by lia.
  by rewrite take_app_length.
Qed.


(** What [publish] leaves behind, case by case, where the previous file
    is absent or loads. *)
Lemma publish_cases E name args c w :
  loads name w →
  let r := publish E name args c w in
  files r.2 = <[dest_of name := c]> (files w) ∧
  ((restart args && has_changed (files w !! dest_of name) c = false ∧
    r.1 = Ok tt ∧ issued w r.2 = []) ∨
   (restart args && has_changed (files w !! dest_of name) c = true ∧
    systemctl E (length (sys_log w)) (status_cmd name) ≠ 0 ∧
    r.1 = Ok tt ∧ issued w r.2 = [status_cmd name]) ∨
   (restart args && has_changed (files w !! dest_of name) c = true ∧
    systemctl E (length (sys_log w)) (status_cmd name) = 0 ∧
    issued w r.2 = [restart_cmd name; status_cmd name])).
Proof.
  intros Hloads. cbn zeta. rewrite (publish_eq _ _ _ _ _ Hloads).
  destruct (restart args && has_changed (files w !! dest_of name) c) eqn:Hb.
  - destruct (Z.eqb_spec (systemctl E (length (sys_log w)) (status_cmd name)) 0)
      as [H0 | Hn0].
    + unfold check_call. cbn zeta.
      destruct (Z.eqb _ 0); cbn [fst snd]; (split; [apply files_written |]);
        right; right; (repeat split; [done |]);
        apply (issued_app _ _ [restart_cmd name; status_cmd name]);
        cbn [log_command sys_log app]; by rewrite sys_log_written.
    + cbn [fst snd]. split; [apply files_written |]. right; left.
      repeat split; try done.
      apply (issued_app _ _ [status_cmd name]).
      cbn [log_command sys_log app]. by rewrite sys_log_written.
  - cbn [fst snd]. split; [apply files_written |]. left.
    repeat split. apply issued_nil, sys_log_written.
Qed.

(** What [publish] leaves behind where the previous file does not load. *)
Lemma publish_unreadable_cases E name args c w :
  ¬ loads name w →
  let r := publish E name args c w in
  r.1 = Raise (UnreadableConfig (dest_of name)) ∧
  files r.2 = files w ∧ unreadable r.2 = unreadable w ∧ issued w r.2 = [].
Proof.
  intros Hnot. cbn zeta. rewrite (publish_unreadable _ _ _ _ _ Hnot). cbn [fst snd].
  split; [done |]. split; [apply files_with_directory |].
  split; [apply unreadable_with_directory |].
  apply issued_nil, sys_log_with_directory.
Qed.

(** [publish] issues no request and leaves the caches alone. *)
Lemma publish_tables E name args c w :
  net_log (publish E name args c w).2 = net_log w ∧
  extdist_cache (publish E name args c w).2 = extdist_cache w ∧
  settings_cache (publish E name args c w).2 = settings_cache w ∧
  gitmodules_cache (publish E name args c w).2 = gitmodules_cache w.
Proof.
  destruct (loads_dec name w) as [Hloads | Hnot].
  - rewrite (publish_eq _ _ _ _ _ Hloads).
    unfold written, with_directory, check_call. cbn zeta.
    repeat (match goal with
            | |- context [if ?b then _ else _] => destruct b
            end); done.
  - rewrite (publish_unreadable _ _ _ _ _ Hnot). unfold with_directory.
    cbn [snd]. by destruct (bool_decide _).
Qed.

(** The directory of the profile is there after [publish], whether it
    returns or raises, and no directory is removed. *)
Lemma dirs_publish E name args c w :
  directory_of name ∈ dirs (publish E name args c w).2 ∧
  dirs w ⊆ dirs (publish E name args c w).2.
Proof.
  assert (dirs (publish E name args c w).2 = dirs (with_directory name w)) as ->.
  { destruct (loads_dec name w) as [Hloads | Hnot].
    - rewrite (publish_eq _ _ _ _ _ Hloads). unfold written, check_call. cbn zeta.
      repeat (match goal with
              | |- context [if ?b then _ else _] => destruct b
              end); reflexivity.
    - by rewrite (publish_unreadable _ _ _ _ _ Hnot). }
  unfold with_directory.
  destruct (bool_decide (directory_of name ∈ dirs w)) eqn:Hdir; cbn.
  - apply bool_decide_eq_true in Hdir. set_solver.
  - set_solver.
Qed.



(** The claim C3 says that the new configuration is always written.  A
    previous file that is in place and does not load is a case where it is
    not: called for the profile [core] without the restart flag, [publish]
    raises, and there is no loading configuration at the destination
    afterwards. *)
Lemma unreadable_previous_not_written :
  let w := set_unreadable {[ dest_of "core" ]} (fresh_world ∅ ∅) in
  let r := publish (env_status 0) "core" restart_off conf_core w in
  r.1 = Raise (UnreadableConfig "/srv/hound/hound-core/config.json") ∧
  files r.2 !! dest_of "core" = None ∧
  dest_of "core" ∈ unreadable r.2.
Proof.
  cbn zeta. split; [by_computation |]. split; by_computation.
Qed.

(** C10.  Where the previous file is absent or loads, so that [publish]
    gets to the restart path: whatever the non-zero exit status of the
    status command is (a unit that is not registered, or one that is
    registered and inactive or failed), [publish] prints its message and
    returns normally without running the restart command, the new
    configuration being written; the restart command is run only after a
    status command that exited with zero, and it is run then whenever the
    flag is set and the URLs have changed.  Where the previous file does
    not load, no command is run. *)
Theorem status_exit_decides_restart E name args c w :
  let r := publish E name args c w in
  let code := systemctl E (length (sys_log w)) (status_cmd name) in
  (code ≠ 0 → loads name w →
   r.1 = Ok tt ∧ (restart_cmd name ∉ issued w r.2) ∧
   files r.2 !! dest_of name = Some c) ∧
  (code ≠ 0 → restart args = true →
   has_changed (files w !! dest_of name) c = true → loads name w →
   r = (Ok tt, log_command (status_cmd name) (written name c w))) ∧
  (restart_cmd name ∈ issued w r.2 → code = 0 ∧ loads name w) ∧
  (code = 0 → restart args = true →
   has_changed (files w !! dest_of name) c = true → loads name w →
   issued w r.2 = [restart_cmd name; status_cmd name]) ∧
  (¬ loads name w → issued w r.2 = []).
Proof.
  intros r code. subst r code.
  assert (restart_cmd name ≠ status_cmd name) as Hne by (intros H; discriminate H).
  destruct (loads_dec name w) as [Hloads | Hnot].
  - destruct (publish_cases E name args c w Hloads) as [Hfiles Hcases].
    cbn zeta in *.
    split; [| split; [| split; [| split]]].
    + intros Hcode _. split; [| split].
      * destruct Hcases as [(_ & Hr & _) | [(_ & _ & Hr & _) | (_ & H0 & _)]]; done.
      * destruct Hcases as [(_ & _ & Hi) | [(_ & _ & _ & Hi) | (_ & H0 & _)]];
          [rewrite Hi; apply not_elem_of_nil | rewrite Hi | done].
        intros Hin. apply list_elem_of_singleton in Hin. done.
      * by rewrite Hfiles, lookup_insert_eq.
    + intros Hcode Hflag Hchanged _.
      rewrite (publish_eq _ _ _ _ _ Hloads), Hflag, Hchanged. cbn [andb].
      by destruct (Z.eqb_spec (systemctl E (length (sys_log w)) (status_cmd name)) 0).
    + intros Hin. split; [| done].
      destruct Hcases as [(_ & _ & Hi) | [(_ & _ & _ & Hi) | (_ & H0 & _)]];
        [rewrite Hi in Hin; by apply not_elem_of_nil in Hin | rewrite Hi in Hin | done].
      apply list_elem_of_singleton in Hin. done.
    + intros Hcode Hflag Hchanged _.
      destruct Hcases as [(Hb & _) | [(_ & Hs & _) | (_ & _ & Hi)]]; [| done | done].
      rewrite Hflag, Hchanged in Hb. discriminate.
    + done.
  - destruct (publish_unreadable_cases E name args c w Hnot) as (_ & _ & _ & Hi).
    cbn zeta in Hi.
    split; [done |]. split; [done |]. split; [| split; [done | done]].
    rewrite Hi. intros Hin. by apply not_elem_of_nil in Hin.
Qed.

Lemma status_exit_decides_restart_witness :
  publish (env_status 3) "core" restart_on conf_core (fresh_world ∅ ∅)
  = (Ok tt, log_command (status_cmd "core") (written "core" conf_core (fresh_world ∅ ∅))).
Proof.
  destruct (status_exit_decides_restart (env_status 3) "core" restart_on conf_core
              (fresh_world ∅ ∅)) as (_ & Hstatus & _).
  apply Hstatus.
  - vm_compute. discriminate.
  - reflexivity.
  - vm_compute. reflexivity.
  - intros _. apply not_elem_of_empty.
Defined.

(** ** What a computation may change *)

Section Respects.

Context (R : relation world) `{!PreOrder R}.

Lemma respects_ret {A} (a : A) : respects R (mret a).
Proof. intros w. cbn. reflexivity. Qed.

Lemma respects_raise {A} (e : exn) : respects R (@raise A e).
Proof. intros w. cbn. reflexivity. Qed.

Lemma respects_get_world : respects R get_world.
Proof. intros w. cbn. reflexivity. Qed.

Lemma respects_bind {A B} (m : M A) (k : A → M B) :
  respects R m → (∀ a, respects R (k a)) → respects R (m ≫= k).
Proof.
  intros Hm Hk w. unfold_M. specialize (Hm w).
  destruct (m w) as [[a|e] w1]; cbn in *; [| done].
  by etrans; [| apply Hk].
Qed.

Lemma respects_modify (f : world → world) :
  (∀ w, R w (f w)) → respects R (modify f).
Proof. intros Hf w. apply Hf. Qed.

Lemma respects_fetch {A} (req : request) (answer : nat → option A) :
  (∀ w, R w (log_request req w)) → respects R (fetch req answer).
Proof. intros Hlog w. unfold fetch. destruct (answer _); apply Hlog. Qed.

Lemma respects_check_call E (cmd : list string) :
  (∀ w, R w (log_command cmd w)) → respects R (check_call E cmd).
Proof. intros Hlog w. unfold check_call. cbn zeta. destruct (Z.eqb _ _); apply Hlog. Qed.

Lemma respects_try_except {A B} (body : M A) caught (handler : M B) rest :
  respects R body → respects R handler → (∀ a, respects R (rest a)) →
  respects R (try_except body caught handler rest).
Proof.
  intros Hb Hh Hr w. unfold try_except. specialize (Hb w).
  destruct (body w) as [[a|e] w1]; cbn in *.
  - by etrans; [| apply Hr].
  - destruct (caught e); [by etrans; [| apply Hh] | done].
Qed.

Lemma respects_run_rules (rules : list rule) :
  Forall (λ r : rule, ∀ repos, respects R (r repos)) rules →
  ∀ repos, respects R (run_rules rules repos).
Proof.
  induction 1 as [|r rules Hr _ IH]; intros repos; cbn [run_rules].
  - apply respects_ret.
  - by apply respects_bind.
Qed.

End Respects.

Global Instance build_frame_preorder : PreOrder build_frame.
Proof.
  split.
  - intros w. repeat split. by exists [].
  - intros w1 w2 w3 (Hf1 & Hd1 & Hs1 & l1 & Hn1) (Hf2 & Hd2 & Hs2 & l2 & Hn2).
    repeat split; [congruence.. |].
    exists (l2 ++ l1)%list. by rewrite Hn2, Hn1, (assoc_L (++)).
Qed.

Global Instance files_kept_preorder : PreOrder files_kept.
Proof. split; [by intros w path | intros w1 w2 w3 H1 H2 path H; auto]. Qed.

Global Instance files_frame_preorder paths : PreOrder (files_frame paths).
Proof.
  split; [by intros w path | intros w1 w2 w3 H1 H2 path H].
  by rewrite H2, H1.
Qed.

(** One step of a proof that a computation of the program respects a
    relation; the facts about the basic changes of the state are found by
    [eauto] in the database [frames]. *)
Create HintDb frames.

Ltac respects_step :=
  lazymatch goal with
  | |- respects ?R (mret _) => apply (respects_ret R)
  | |- respects ?R (raise _) => apply (respects_raise R)
  | |- respects ?R get_world => apply (respects_get_world R)
  | |- respects ?R (modify _) =>
      apply (respects_modify R); intros ?; eauto with frames
  | |- respects ?R (fetch _ _) =>
      apply (respects_fetch R); intros ?; eauto with frames
  | |- respects ?R (check_call _ _) =>
      apply (respects_check_call R); intros ?; eauto with frames
  | |- respects ?R (try_except _ _ _ _) =>
      apply (respects_try_except R); [| | intros ?]
  | |- respects ?R (_ ≫= _) => apply (respects_bind R); [| intros ?]
  | |- respects _ (if ?b then _ else _) => destruct b
  | |- respects _ (match ?x with _ => _ end) => destruct x
  end.

Ltac solve_respects := repeat respects_step.

Lemma build_frame_log_request req w : build_frame w (log_request req w).
Proof. repeat split. by exists [req]. Qed.

Lemma build_frame_set_extdist_cache c w : build_frame w (set_extdist_cache c w).
Proof. repeat split. by exists []. Qed.

Lemma build_frame_set_gitmodules_cache c w :
  build_frame w (set_gitmodules_cache c w).
Proof. repeat split. by exists []. Qed.

Lemma build_frame_set_settings_cache c w : build_frame w (set_settings_cache c w).
Proof. repeat split. by exists []. Qed.

#[export] Hint Resolve build_frame_log_request build_frame_set_extdist_cache
  build_frame_set_gitmodules_cache build_frame_set_settings_cache : frames.

Section BuildRespects.

Context (E : environment) (R : relation world) `{!PreOrder R}.
Hypothesis R_log_request : ∀ req w, R w (log_request req w).
Hypothesis R_extdist : ∀ c w, R w (set_extdist_cache c w).
Hypothesis R_gitmodules : ∀ c w, R w (set_gitmodules_cache c w).
Hypothesis R_settings : ∀ c w, R w (set_settings_cache c w).

Local Hint Resolve R_log_request R_extdist R_gitmodules R_settings : frames.

Lemma respects_get_extdist_repos : respects R (get_extdist_repos E).
Proof. unfold get_extdist_repos. solve_respects. Qed.

Lemma respects_parse_gitmodules url : respects R (parse_gitmodules E url).
Proof.
  unfold parse_gitmodules, parse_gitmodules_uncached. solve_respects.
Qed.

Lemma respects_settings_yaml : respects R (_settings_yaml E).
Proof. unfold _settings_yaml, get_gerrit_yaml. solve_respects. Qed.

Lemma respects_settings_get doc k1 k2 : respects R (settings_get doc k1 k2).
Proof. unfold settings_get. solve_respects. Qed.

Lemma respects_gerrit_prefix_list prefix : respects R (gerrit_prefix_list E prefix).
Proof. unfold gerrit_prefix_list. solve_respects. Qed.

Lemma respects_rules_before fl :
  Forall (λ r : rule, ∀ repos, respects R (r repos)) (rules_before_listing fl).
Proof.
  unfold rules_before_listing, rule_core, rule_pywikibot, rule_ooui.
  repeat constructor; intros repos; solve_respects.
Qed.

Lemma respects_rules_after fl data :
  Forall (λ r : rule, ∀ repos, respects R (r repos)) (rules_after_listing E fl data).
Proof.
  unfold rules_after_listing.
  repeat constructor; intros repos;
    unfold rule_exts, rule_skins, rule_puppet, rule_puppet_or_wmcs,
      rule_operations, rule_armchairgm, rule_twn, rule_milkshake,
      rule_bundled, rule_wikimedia, rule_vendor, rule_services, rule_libs,
      rule_analytics, rule_schemas, rule_shouthow, rule_wmcs,
      bundled_repos, wikimedia_deployed_repos;
    repeat first
      [ apply respects_parse_gitmodules | apply respects_settings_yaml
      | apply respects_settings_get | apply respects_gerrit_prefix_list
      | respects_step ].
Qed.

Lemma respects_build_repos fl : respects R (build_repos E fl).
Proof.
  unfold build_repos. apply (respects_bind R).
  { apply (respects_run_rules R), respects_rules_before. }
  intros repos. apply (respects_bind R); [apply respects_get_extdist_repos |].
  intros data. apply (respects_run_rules R), respects_rules_after.
Qed.

End BuildRespects.

Lemma build_frame_rules_after E fl data :
  Forall (λ r : rule, ∀ repos, respects build_frame (r repos))
         (rules_after_listing E fl data).
Proof. apply respects_rules_after; auto with frames; apply _. Qed.

Lemma build_frame_build_repos E fl : respects build_frame (build_repos E fl).
Proof. apply respects_build_repos; auto with frames; apply _. Qed.

(** Building a mapping leaves the files that do not load alone too. *)
Lemma unreadable_build_repos E fl w :
  unreadable (build_repos E fl w).2 = unreadable w.
Proof.
  assert (PreOrder (λ w w' : world, unreadable w' = unreadable w)) as Hpre
    by (split; [by intros ? | intros ? ? ? H1 H2; by rewrite H2, H1]).
  by apply (respects_build_repos E (λ w w', unreadable w' = unreadable w)).
Qed.

(** ** The listing of extensions and skins *)

Lemma rules_before_listing_pure fl repos w :
  ∃ repos', run_rules (rules_before_listing fl) repos w = (Ok repos', w).
Proof.
  unfold rules_before_listing, run_rules, rule_core, rule_pywikibot, rule_ooui.
  unfold_M. destruct (fl core), (fl pywikibot), (fl ooui); eauto.
Qed.

Lemma get_extdist_repos_miss E w :
  extdist_cache w = None →
  get_extdist_repos E w =
    match extdistrepos_api E (length (net_log w)) with
    | Some data =>
        (Ok data, set_extdist_cache (Some data) (log_request ReqExtdistrepos w))
    | None => (Raise (RequestFailed ReqExtdistrepos), log_request ReqExtdistrepos w)
    end.
Proof.
  intros Hmiss. unfold get_extdist_repos, fetch. unfold_M. rewrite Hmiss.
  by destruct (extdistrepos_api E _).
Qed.

Lemma get_extdist_repos_hit E w data :
  extdist_cache w = Some data → get_extdist_repos E w = (Ok data, w).
Proof. intros Hhit. unfold get_extdist_repos. unfold_M. by rewrite Hhit. Qed.

Lemma net_log_publish E name args c : respects (λ w w', net_log w' = net_log w)
                                                   (publish E name args c).
Proof. intros w. by destruct (publish_tables E name args c w) as [H _]. Qed.

(** C9.  Every call of [make_conf] asks for the listing of extensions and
    skins before anything else and whatever its flags are: with nothing
    cached, the query of the listing is the first request that the call
    issues, and when that query fails the call raises its failure, for
    every profile, having written nothing and run nothing. *)
Theorem listing_fetched_first E name args on w :
  extdist_cache w = None →
  (∃ later,
     net_log (make_conf E name args on w).2
     = (later ++ ReqExtdistrepos :: net_log w)%list) ∧
  (extdistrepos_api E (length (net_log w)) = None →
   make_conf E name args on w
   = (Raise (RequestFailed ReqExtdistrepos), log_request ReqExtdistrepos w) ∧
   files (make_conf E name args on w).2 = files w ∧
   sys_log (make_conf E name args on w).2 = sys_log w).
Proof.
  intros Hmiss.
  destruct (rules_before_listing_pure (enabled on) ∅ w) as [repos0 Hbefore].
  assert (∀ X (k : gmap string repo → M X),
            (build_repos E (enabled on) ≫= k) w
            = ((get_extdist_repos E ≫= λ data,
                run_rules (rules_after_listing E (enabled on) data) repos0) ≫= k) w)
    as Hbuild.
  { intros X k. unfold build_repos. unfold_M. by rewrite Hbefore. }
  split.
  - unfold make_conf. rewrite Hbuild. unfold_M.
    rewrite (get_extdist_repos_miss E w Hmiss).
    destruct (extdistrepos_api E (length (net_log w))) as [data|]; [| by exists []].
    set (w1 := set_extdist_cache (Some data) (log_request ReqExtdistrepos w)).
    pose proof (respects_run_rules build_frame _
                  (build_frame_rules_after E (enabled on) data) repos0 w1)
      as (_ & _ & _ & later & Hlog).
    destruct (run_rules _ repos0 w1) as [[repos1|e] w2]; cbn in Hlog.
    + pose proof (net_log_publish E name args (conf_of repos1) w2) as Hpub.
      cbn in Hpub. rewrite Hpub, Hlog. by exists later.
    + cbn [snd]. rewrite Hlog. by exists later.
  - intros Hfail.
    assert (make_conf E name args on w
            = (Raise (RequestFailed ReqExtdistrepos), log_request ReqExtdistrepos w))
      as Heq.
    { unfold make_conf. rewrite Hbuild. unfold_M.
      by rewrite (get_extdist_repos_miss E w Hmiss), Hfail. }
    by rewrite Heq.
Qed.

Lemma listing_fetched_first_witness :
  make_conf (env_status 0) "core" restart_off [core] (fresh_world ∅ ∅)
  = (Raise (RequestFailed ReqExtdistrepos),
     log_request ReqExtdistrepos (fresh_world ∅ ∅)) ∧
  make_conf (env_status 0) "pywikibot" restart_off [pywikibot] (fresh_world ∅ ∅)
  = (Raise (RequestFailed ReqExtdistrepos),
     log_request ReqExtdistrepos (fresh_world ∅ ∅)).
Proof.
  split.
  - apply (listing_fetched_first (env_status 0) "core" restart_off [core]
             (fresh_world ∅ ∅)); reflexivity.
  - apply (listing_fetched_first (env_status 0) "pywikibot" restart_off [pywikibot]
             (fresh_world ∅ ∅)); reflexivity.
Defined.

(** ** The order of the rules *)

Lemma set_items_union items (m1 m2 : gmap string repo) :
  set_items items (m1 ∪ m2) = set_items items m1 ∪ m2.
Proof.
  unfold set_items. revert m1.
  induction items as [|[k v] items IH]; intros m1; cbn; [done |].
  by rewrite insert_union_l, IH.
Qed.

(** Proves that a mapping built from [repos] by the writes of a rule is the
    mapping built from the empty one, laid over [repos]. *)
Ltac overwrite_pure repos :=
  rewrite <- (left_id_L ∅ (∪) repos) at 1;
  repeat first [ rewrite set_items_union | rewrite insert_union_l
               | rewrite (assoc_L (∪)) ];
  rewrite ?(left_id_L ∅ (∪));
  reflexivity.

Ltac overwrites_step :=
  match goal with
  | |- context [if ?b then _ else _] => destruct b
  | |- context [let (_, _) := ?m ?w in _] => destruct (m w) as [[?|?] ?]
  | |- context [match extdist_extensions ?d with _ => _ end] =>
      destruct (extdist_extensions d) eqn:?
  | |- context [match ?doc !! ?k with _ => _ end] => destruct (doc !! k)
  end; cbv beta iota.

(** Proves [overwrites] for a rule once its definition is unfolded. *)
Ltac prove_overwrites :=
  let repos := fresh "repos" in
  intros repos ?; unfold_M; cbv beta iota;
  repeat overwrites_step;
  first [ reflexivity
        | by rewrite (left_id_L ∅ (∪))
        | do 2 f_equal; overwrite_pure repos ].

Lemma overwrites_pure_rule (f : gmap string repo → gmap string repo) (b : bool) :
  (∀ repos, f repos = f ∅ ∪ repos) →
  overwrites (λ repos, if b then mret (f repos) else mret repos).
Proof.
  intros Hf repos w. destruct b; cbn.
  - by rewrite (Hf repos).
  - by rewrite (left_id_L ∅ (∪)).
Qed.

Lemma overwrites_rules_before fl : Forall overwrites (rules_before_listing fl).
Proof.
  unfold rules_before_listing, rule_core, rule_pywikibot, rule_ooui.
  repeat constructor;
    apply (overwrites_pure_rule (λ repos, <[_ := _]> repos));
    intros repos; overwrite_pure repos.
Qed.

Lemma overwrites_rules_after E fl data :
  Forall overwrites (rules_after_listing E fl data).
Proof.
  unfold rules_after_listing.
  repeat constructor.
  - unfold rule_exts. prove_overwrites.
  - unfold rule_skins. prove_overwrites.
  - unfold rule_puppet. prove_overwrites.
  - unfold rule_puppet_or_wmcs. prove_overwrites.
  - unfold rule_operations. prove_overwrites.
  - unfold rule_armchairgm. prove_overwrites.
  - unfold rule_twn. prove_overwrites.
  - unfold rule_milkshake. prove_overwrites.
  - unfold rule_bundled, bundled_repos, settings_get. prove_overwrites.
  - unfold rule_wikimedia, wikimedia_deployed_repos, settings_get. prove_overwrites.
  - unfold rule_vendor. prove_overwrites.
  - unfold rule_services. prove_overwrites.
  - unfold rule_libs. prove_overwrites.
  - unfold rule_analytics. prove_overwrites.
  - unfold rule_schemas. prove_overwrites.
  - unfold rule_shouthow. prove_overwrites.
  - unfold rule_wmcs. prove_overwrites.
Qed.

Lemma run_rules_writes (rules : list rule) repos w final w' :
  Forall overwrites rules →
  run_rules rules repos w = (Ok final, w') →
  final = apply_writes (rule_writes rules w) repos ∧
  length (rule_writes rules w) = length rules ∧
  (∀ m, run_rules rules m w = (Ok (apply_writes (rule_writes rules w) m), w')).
Proof.
  intros Hall. revert repos w.
  induction Hall as [|r rules Hr _ IH]; intros repos w Hrun.
  - cbn in Hrun. injection Hrun as <- <-. done.
  - cbn [run_rules] in Hrun. apply bind_inv_ok in Hrun as (repos1 & w1 & Hr1 & Hrest).
    rewrite Hr in Hr1. cbn [rule_writes].
    destruct (r ∅ w) as [[set_by_rule|e] w0] eqn:Hr0; [| discriminate].
    injection Hr1 as <- <-.
    destruct (IH _ _ Hrest) as (-> & Hlen & Huniform).
    split; [done |]. split; [cbn; by rewrite Hlen |].
    intros m. cbn [run_rules]. unfold_M. rewrite (Hr m w), Hr0.
    apply Huniform.
Qed.

(** The last map of a list that has a key decides the value of that key
    after the maps are laid one over the other. *)
Lemma apply_writes_last (writes : list (gmap string repo)) repos j set_j name d :
  writes !! j = Some set_j →
  set_j !! name = Some d →
  (∀ k set_k, (j < k)%nat → writes !! k = Some set_k → set_k !! name = None) →
  apply_writes writes repos !! name = Some d.
Proof.
  unfold apply_writes. revert repos j.
  induction writes as [|set_0 writes IH]; intros repos j Hj Hd Hlater; [done |].
  cbn [foldl]. destruct j as [|j].
  - injection Hj as ->.
    assert (∀ m : gmap string repo,
              m !! name = Some d →
              foldl (λ acc set_by_rule, set_by_rule ∪ acc) m writes !! name = Some d)
      as Hkeep.
    { assert (∀ k set_k, writes !! k = Some set_k → set_k !! name = None) as Hnone.
      { intros k set_k Hk. apply (Hlater (S k) set_k); [lia | done]. }
      clear -Hnone. induction writes as [|set_1 writes IH]; intros m Hm; [done |].
      cbn [foldl]. apply IH.
      - intros k set_k Hk. apply (Hnone (S k) set_k Hk).
      - rewrite lookup_union_r; [done |]. apply (Hnone 0%nat set_1). done. }
    apply Hkeep. by apply lookup_union_Some_l.
  - apply (IH _ j); [done | done |].
    intros k set_k Hlt Hk. apply (Hlater (S k) set_k); [lia | done].
Qed.

Lemma build_repos_writes E fl w final w' :
  build_repos E fl w = (Ok final, w') →
  final = apply_writes (build_writes E fl w) ∅ ∧
  length (build_writes E fl w) = 20%nat.
Proof.
  intros Hbuild. unfold build_repos in Hbuild.
  apply bind_inv_ok in Hbuild as (repos0 & w0 & Hbefore & Hbuild).
  apply bind_inv_ok in Hbuild as (data & w1 & Hdata & Hafter).
  destruct (rules_before_listing_pure fl ∅ w) as [repos0' Hpure].
  rewrite Hpure in Hbefore. injection Hbefore as -> <-.
  destruct (run_rules_writes _ _ _ _ _ (overwrites_rules_before fl) Hpure)
    as (-> & Hlen0 & _).
  destruct (run_rules_writes _ _ _ _ _ (overwrites_rules_after E fl data) Hafter)
    as (-> & Hlen1 & _).
  unfold build_writes. rewrite Hdata. split.
  - unfold apply_writes. by rewrite foldl_app.
  - rewrite length_app, Hlen0, Hlen1. reflexivity.
Qed.

(** C8.  Every rule of [make_conf] lays its own entries over the mapping
    built so far, so that, of two rules that set the same name, the later
    one in the order of the source decides: when the rules at the positions
    [i < j] both set a name and no rule after [j] sets it, the mapping of
    the profile has for that name the descriptor set by the rule at [j].
    In particular, in a profile with [operations] and [wikimedia] on, the
    [wikimedia] rule (position 12) sets [Wikimedia MediaWiki config] after
    the [operations] rule (position 7) has set it. *)
Theorem last_write_wins E fl w final w' :
  build_repos E fl w = (Ok final, w') →
  (∀ data, Forall overwrites (rules_before_listing fl ++
                              rules_after_listing E fl data)) ∧
  length (build_writes E fl w) = 20%nat ∧
  final = apply_writes (build_writes E fl w) ∅ ∧
  (∀ i j set_i set_j name d_i d_j,
     (i < j)%nat →
     build_writes E fl w !! i = Some set_i →
     build_writes E fl w !! j = Some set_j →
     set_i !! name = Some d_i →
     set_j !! name = Some d_j →
     (∀ k set_k, (j < k)%nat → build_writes E fl w !! k = Some set_k →
                 set_k !! name = None) →
     final !! name = Some d_j) ∧
  (fl operations = true → fl wikimedia = true →
   ∃ set_7 set_12,
     build_writes E fl w !! 7%nat = Some set_7 ∧
     build_writes E fl w !! 12%nat = Some set_12 ∧
     set_7 !! "Wikimedia MediaWiki config"
     = Some (repo_info "operations/mediawiki-config") ∧
     set_12 !! "Wikimedia MediaWiki config"
     = Some (repo_info "operations/mediawiki-config")).
Proof.
  intros Hbuild.
  destruct (build_repos_writes E fl w final w' Hbuild) as [Hfinal Hlen].
  split.
  { intros data. apply Forall_app. split.
    - apply overwrites_rules_before.
    - apply overwrites_rules_after. }
  split; [done |]. split; [done |]. split.
  { intros i j set_i set_j name d_i d_j _ _ Hj _ Hd Hlater.
    rewrite Hfinal. by apply (apply_writes_last _ _ j set_j). }
  intros Hop Hwm.
  assert (∀ k, (k < 20)%nat → is_Some (build_writes E fl w !! k)) as Hsome.
  { intros k Hk. apply lookup_lt_is_Some. by rewrite Hlen. }
  destruct (Hsome 7%nat) as [set_7 H7]; [lia |].
  destruct (Hsome 12%nat) as [set_12 H12]; [lia |].
  exists set_7, set_12. split; [done |]. split; [done |].
  revert H7 H12. unfold build_writes.
  destruct (rules_before_listing_pure fl ∅ w) as [repos0 Hpure].
  pose proof (run_rules_writes _ _ _ _ _ (overwrites_rules_before fl) Hpure)
    as (_ & Hlen0 & _).
  cbn [rules_before_listing length] in Hlen0.
  rewrite !lookup_app_r; rewrite ?Hlen0; [| lia | lia].
  cbn [Nat.sub].
  destruct (get_extdist_repos E w) as [[data|e] w1]; [| done].
  unfold rules_after_listing.
  cbn [rule_writes].
  repeat match goal with
         | |- context [let (_, _) := ?r ∅ ?w in _] =>
             let H := fresh "Hrun" in
             destruct (r ∅ w) as [[?|?] ?] eqn:H; [| done]
         end.
  cbn [lookup list_lookup]. intros [= <-] [= <-].
  split.
  - match goal with
    | H : rule_operations fl ∅ _ = _ |- _ =>
        unfold rule_operations in H; rewrite Hop in H;
        apply ok_eq_inv in H as [<- _]
    end.
    vm_compute. reflexivity.
  - match goal with
    | H : rule_wikimedia _ fl ∅ _ = _ |- _ =>
        unfold rule_wikimedia in H; rewrite Hwm in H;
        apply bind_inv_ok in H as (names & ? & _ & H);
        apply ok_eq_inv in H as [<- _]
    end.
    unfold set_items at 1. cbn [foldl fst snd].
    rewrite lookup_insert_ne; [| done]. by rewrite lookup_insert_eq.
Qed.

Lemma last_write_wins_witness :
  ∃ final w',
    build_repos (env_all ["Cite"] ["Vector"] manifest_vendor) (enabled [exts; vendor])
                (fresh_world ∅ ∅) = (Ok final, w') ∧
    final !! "mediawiki/vendor" = Some (repo_info "mediawiki/vendor").
Proof.
  set (E := env_all ["Cite"] ["Vector"] manifest_vendor).
  set (fl := enabled [exts; vendor]).
  set (w := fresh_world ∅ ∅).
  exists (apply_writes (build_writes E fl w) ∅), (build_repos E fl w).2.
  assert (build_repos E fl w
          = (Ok (apply_writes (build_writes E fl w) ∅), (build_repos E fl w).2))
    as Hbuild by by_computation.
  split; [exact Hbuild |].
  destruct (last_write_wins E fl w _ _ Hbuild) as (_ & _ & _ & Hlast & _).
  apply (Hlast 3%nat 13%nat
           (default ∅ (build_writes E fl w !! 3%nat))
           (default ∅ (build_writes E fl w !! 13%nat))
           "mediawiki/vendor"
           (gh_repo_default "mediawiki/vendor") (repo_info "mediawiki/vendor")).
  - lia.
  - by_computation.
  - by_computation.
  - by_computation.
  - by_computation.
  - assert (Forall (λ s : gmap string repo, s !! "mediawiki/vendor" = None)
                   (drop 14 (build_writes E fl w))) as Hnone by by_computation.
    intros k set_k Hk Hlk. rewrite Forall_lookup in Hnone.
    apply (Hnone (k - 14)%nat set_k). rewrite lookup_drop.
    by replace (14 + (k - 14))%nat with k by lia.
Defined.

(** ** The run over the profiles *)

Lemma run_profiles_app E args pre rest :
  ∀ w, run_profiles E args (pre ++ rest) w
       = (run_profiles E args pre ≫= λ _, run_profiles E args rest) w.
Proof.
  induction pre as [|p pre IH]; intros w; cbn [app run_profiles].
  - reflexivity.
  - unfold_M. destruct (make_conf E p.1 args p.2 w) as [[[]|e] w1]; [| done].
    rewrite IH. by unfold_M.
Qed.

Lemma files_publish E name args c w :
  loads name w →
  files (publish E name args c w).2 = <[dest_of name := c]> (files w).
Proof. intros Hloads. by destruct (publish_cases E name args c w Hloads) as [H _]. Qed.

Lemma files_publish_cases E name args c w :
  files (publish E name args c w).2 = <[dest_of name := c]> (files w) ∨
  files (publish E name args c w).2 = files w.
Proof.
  destruct (loads_dec name w) as [Hloads | Hnot].
  - left. by apply files_publish.
  - right. by destruct (publish_unreadable_cases E name args c w Hnot) as (_ & H & _).
Qed.

(** [publish] returns only where the previous file is absent or loads. *)
Lemma publish_ok_loads E name args c w w' :
  publish E name args c w = (Ok tt, w') → loads name w.
Proof.
  intros Hpub. destruct (loads_dec name w) as [Hloads | Hnot]; [done |].
  rewrite (publish_unreadable _ _ _ _ _ Hnot) in Hpub. discriminate.
Qed.

Section MakeConfRespects.

Context (E : environment) (R : relation world) `{!PreOrder R}.
Hypothesis R_files : ∀ w w', files w' = files w → R w w'.

Lemma respects_build_repos_files fl : respects R (build_repos E fl).
Proof.
  intros w. apply R_files.
  by destruct (build_frame_build_repos E fl w) as [H _].
Qed.

Lemma respects_make_conf name args on :
  (∀ c, respects R (publish E name args c)) →
  respects R (make_conf E name args on).
Proof.
  intros Hpub. unfold make_conf. apply (respects_bind R).
  - apply respects_build_repos_files.
  - intros repos. apply Hpub.
Qed.

End MakeConfRespects.

Lemma files_kept_make_conf E name args on :
  respects files_kept (make_conf E name args on).
Proof.
  apply respects_make_conf; [apply _ | by intros w w' Heq path; rewrite Heq |].
  intros c w path [old Hold].
  destruct (files_publish_cases E name args c w) as [-> | ->]; [| eauto].
  destruct (decide (dest_of name = path)) as [<-|Hne].
  - rewrite lookup_insert_eq. eauto.
  - rewrite lookup_insert_ne; eauto.
Qed.

Lemma files_frame_make_conf E name args on paths :
  dest_of name ∈ paths →
  respects (files_frame paths) (make_conf E name args on).
Proof.
  intros Hin.
  apply respects_make_conf; [apply _ | by intros w w' Heq path _; rewrite Heq |].
  intros c w path Hout.
  destruct (files_publish_cases E name args c w) as [-> | ->]; [| done].
  rewrite lookup_insert_ne; [done |]. intros <-. done.
Qed.

Lemma files_kept_run_profiles E args ps :
  respects files_kept (run_profiles E args ps).
Proof.
  induction ps as [|p ps IH]; cbn [run_profiles].
  - apply (respects_ret files_kept).
  - apply (respects_bind files_kept); [apply files_kept_make_conf | done].
Qed.

Lemma files_frame_run_profiles E args ps paths :
  (∀ p, p ∈ ps → dest_of p.1 ∈ paths) →
  respects (files_frame paths) (run_profiles E args ps).
Proof.
  induction ps as [|p ps IH]; intros Hin; cbn [run_profiles].
  - apply (respects_ret (files_frame paths)).
  - apply (respects_bind (files_frame paths)).
    + apply files_frame_make_conf, Hin. by left.
    + intros _. apply IH. intros q Hq. apply Hin. by right.
Qed.

Lemma make_conf_ok_written E name args on w w' :
  make_conf E name args on w = (Ok tt, w') →
  is_Some (files w' !! dest_of name).
Proof.
  unfold make_conf. intros H.
  apply bind_inv_ok in H as (repos & w1 & _ & Hpub).
  pose proof (files_publish E name args (conf_of repos) w1
                (publish_ok_loads _ _ _ _ _ _ Hpub)) as Hfiles.
  rewrite Hpub in Hfiles. cbn in Hfiles. rewrite Hfiles, lookup_insert_eq. eauto.
Qed.

Lemma run_profiles_ok_written E args ps w w' :
  run_profiles E args ps w = (Ok tt, w') →
  ∀ q, q ∈ ps → is_Some (files w' !! dest_of q.1).
Proof.
  revert w. induction ps as [|p ps IH]; intros w Hrun q Hq;
    [by apply not_elem_of_nil in Hq |].
  cbn [run_profiles] in Hrun.
  apply bind_inv_ok in Hrun as ([] & w1 & Hp & Hrest).
  apply elem_of_cons in Hq as [-> | Hq].
  - pose proof (files_kept_run_profiles E args ps w1 (dest_of p.1)) as Hkept.
    rewrite Hrest in Hkept. apply Hkept.
    exact (make_conf_ok_written E p.1 args p.2 w w1 Hp).
  - by apply (IH w1).
Qed.

Lemma profiles_dest_NoDup : NoDup ((λ p, dest_of p.1) <$> profiles).
Proof. apply (bool_decide_unpack _). vm_compute. reflexivity. Qed.

(** C1, as the program has it.  Nothing catches what a call of [make_conf]
    raises: when the profiles before [p] have been processed and the call
    for [p] raises, [main] raises the same exception and ends in the state
    in which that call ended.  The configurations of the profiles before
    [p] are then in place, and the files of the profiles after [p] are
    what they were before the run. *)
Theorem failure_stops_run E args w pre p post e w1 w2 :
  profiles = (pre ++ p :: post)%list →
  run_profiles E args pre w = (Ok tt, w1) →
  make_conf E p.1 args p.2 w1 = (Raise e, w2) →
  main E args w = (Raise e, w2) ∧
  (∀ q, q ∈ pre → is_Some (files w2 !! dest_of q.1)) ∧
  (∀ q, q ∈ post → files w2 !! dest_of q.1 = files w !! dest_of q.1).
Proof.
  intros Hsplit Hpre Hp. split; [| split].
  - unfold main. rewrite Hsplit, run_profiles_app. unfold_M. rewrite Hpre.
    cbn [run_profiles]. unfold_M. by rewrite Hp.
  - intros q Hq.
    pose proof (files_kept_make_conf E p.1 args p.2 w1 (dest_of q.1)) as Hkept.
    rewrite Hp in Hkept. apply Hkept.
    by apply (run_profiles_ok_written E args pre w).
  - intros q Hq.
    pose proof profiles_dest_NoDup as Hnodup.
    rewrite Hsplit, fmap_app, fmap_cons in Hnodup.
    apply NoDup_app in Hnodup as (_ & Hdisj & Hnodup).
    apply NoDup_cons in Hnodup as [Hp_post _].
    set (paths := (λ p, dest_of p.1) <$> (pre ++ [p])%list).
    assert (dest_of q.1 ∉ paths) as Hout.
    { unfold paths. rewrite fmap_app. cbn [fmap list_fmap].
      intros Hin. apply elem_of_app in Hin as [Hin | Hin].
      - apply (Hdisj _ Hin). right.
        apply (list_elem_of_fmap_2 (λ p, dest_of p.1)) in Hq. exact Hq.
      - apply list_elem_of_singleton in Hin. apply Hp_post. rewrite <- Hin.
        apply (list_elem_of_fmap_2 (λ p, dest_of p.1)) in Hq. exact Hq. }
    assert (files_frame paths w w1) as H1.
    { pose proof (files_frame_run_profiles E args pre paths) as Hframe.
      specialize (Hframe
        (λ r Hr, list_elem_of_fmap_2 (λ p, dest_of p.1) _ r
                   (proj2 (elem_of_app pre [p] r) (or_introl Hr))) w).
      by rewrite Hpre in Hframe. }
    assert (files_frame paths w1 w2) as H2.
    { pose proof (files_frame_make_conf E p.1 args p.2 paths) as Hframe.
      specialize (Hframe
        (list_elem_of_fmap_2 (λ p, dest_of p.1) _ p
           (proj2 (elem_of_app pre [p] p) (or_intror (list_elem_of_here p [])))) w1).
      by rewrite Hp in Hframe. }
    by rewrite (H2 _ Hout), (H1 _ Hout).
Qed.

Lemma failure_stops_run_witness :
  main env_no_settings restart_off (fresh_world ∅ ∅)
  = (Raise (RequestFailed
              (ReqGerritFile "mediawiki/tools/release" "make-release/settings.yaml")),
     (make_conf env_no_settings "bundled" restart_off [core; bundled; vendor]
        (run_profiles env_no_settings restart_off profiles_before_bundled
           (fresh_world ∅ ∅)).2).2).
Proof.
  apply (failure_stops_run env_no_settings restart_off (fresh_world ∅ ∅)
           profiles_before_bundled ("bundled", [core; bundled; vendor])
           profiles_after_bundled
           (RequestFailed
              (ReqGerritFile "mediawiki/tools/release" "make-release/settings.yaml"))
           (run_profiles env_no_settings restart_off profiles_before_bundled
              (fresh_world ∅ ∅)).2).
  - reflexivity.
  - by_computation.
  - by_computation.
Defined.

(** C1, as stated, fails.  With the settings document out of reach the
    profile [bundled] fails; [main] raises, the profiles declared before it
    have their configuration, and the profiles declared after it are not
    processed: no configuration is written for [shouthow], although the
    call of [make_conf] for it succeeds when it is made. *)
Lemma profile_isolation_counterexample :
  failed_run.1
  = Raise (RequestFailed
             (ReqGerritFile "mediawiki/tools/release" "make-release/settings.yaml")) ∧
  is_Some (files failed_run.2 !! dest_of "milkshake") ∧
  files failed_run.2 !! dest_of "bundled" = None ∧
  Forall (λ q, files failed_run.2 !! dest_of q.1 = None) profiles_after_bundled ∧
  (make_conf env_no_settings "shouthow" restart_off [shouthow] failed_run.2).1 = Ok tt.
Proof. by_computation. Qed.

(** ** The check of the listing *)

Lemma rule_exts_guard E fl data repos w :
  fl exts = true →
  extdist_extensions data = [] →
  rule_exts E fl data repos w
  = (Raise (RuntimeError "Why are there no Gerrit extensions?"), w).
Proof. intros Hfl Hnil. unfold rule_exts. by rewrite Hfl, Hnil. Qed.

Lemma rule_skins_no_guard E fl data repos w :
  fl skins = true →
  extdist_skins data = [] →
  rule_skins E fl data repos w
  = (parse_gitmodules E nonwmf_skins ≫= λ entries, mret (set_items entries repos)) w.
Proof. intros Hfl Hnil. unfold rule_skins. by rewrite Hfl, Hnil. Qed.

(** C4.  The list of extensions is checked and the list of skins is not:
    with a listing without extensions the profile [extensions] raises the
    [RuntimeError] of the sanity check and writes nothing, while with a
    listing without skins the profile [skins] is built and written without
    any [Skin:] entry, its only repository being the one of the manifest. *)
Theorem skins_listing_unchecked :
  extensions_without_extensions.1
  = Raise (RuntimeError "Why are there no Gerrit extensions?") ∧
  files extensions_without_extensions.2 !! dest_of "extensions" = None ∧
  skins_without_skins.1 = Ok tt ∧
  files skins_without_skins.2 !! dest_of "skins"
  = Some (conf_of {[ "org/repo" := gh_repo_default "org/repo" ]}).
Proof. by_computation. Qed.

(** ** The requests of a run *)

(** C5.  In a run of [main] the listing of extensions and skins, the
    settings document and each manifest are requested once, and the
    projects under a prefix are requested again by every profile that
    lists them: three times for [mediawiki/services/], twice for
    [mediawiki/libs/].  When the projects change during the run, the
    profiles [search] and [services] are written with different projects
    for the same prefix. *)
Theorem gerrit_listing_refetched :
  moving_run.1 = Ok tt ∧
  times_requested ReqExtdistrepos moving_run.2 = 1%nat ∧
  times_requested (ReqGerritFile "mediawiki/tools/release" "make-release/settings.yaml")
                  moving_run.2 = 1%nat ∧
  times_requested (ReqGet nonwmf_extensions) moving_run.2 = 1%nat ∧
  times_requested (ReqGet nonwmf_skins) moving_run.2 = 1%nat ∧
  times_requested (ReqGerritProjects "mediawiki/services/") moving_run.2 = 3%nat ∧
  times_requested (ReqGerritProjects "mediawiki/libs/") moving_run.2 = 2%nat ∧
  written_repos "search" moving_run.2 !! "mediawiki/services/old"
  = Some (repo_info "mediawiki/services/old") ∧
  written_repos "search" moving_run.2 !! "mediawiki/services/new" = None ∧
  written_repos "services" moving_run.2 !! "mediawiki/services/old" = None ∧
  written_repos "services" moving_run.2 !! "mediawiki/services/new"
  = Some (repo_info "mediawiki/services/new").
Proof. by_computation. Qed.

(** The counterpart for any environment: a call of [gerrit_prefix_list]
    always issues its request, while the cached queries issue none once
    their result is stored. *)
Lemma gerrit_prefix_list_requests E prefix w :
  net_log (gerrit_prefix_list E prefix w).2 = ReqGerritProjects prefix :: net_log w.
Proof.
  unfold gerrit_prefix_list, fetch. unfold_M.
  by destruct (gerrit_projects E _ prefix).
Qed.

Lemma settings_yaml_hit E w doc :
  settings_cache w = Some doc → _settings_yaml E w = (Ok doc, w).
Proof. intros Hhit. unfold _settings_yaml. unfold_M. by rewrite Hhit. Qed.

Lemma parse_gitmodules_hit E url w entries :
  lru_get url (gitmodules_cache w) = Some entries →
  (parse_gitmodules E url w).1 = Ok entries ∧
  net_log (parse_gitmodules E url w).2 = net_log w.
Proof. intros Hhit. unfold parse_gitmodules. unfold_M. by rewrite Hhit. Qed.

(** ** Memoized queries *)

Lemma times_requested_log_request req r w :
  times_requested req (log_request r w)
  = if decide (r = req) then S (times_requested req w) else times_requested req w.
Proof.
  unfold times_requested. cbn [log_request net_log]. rewrite filter_cons.
  by destruct (decide (r = req)).
Qed.

Lemma times_requested_other req r w :
  r ≠ req → times_requested req (log_request r w) = times_requested req w.
Proof. intros Hne. rewrite times_requested_log_request. by destruct (decide _). Qed.

Lemma at_most_once_memo_inv w : memo_inv w → at_most_once w.
Proof. by intros [H _]. Qed.

Lemma lru_get_None {V} k (c : list (string * V)) :
  lru_get k c = None ↔ k ∉ c.*1.
Proof.
  induction c as [|[k' v] c IH]; cbn.
  - split; [intros _; apply not_elem_of_nil | done].
  - destruct (String.eqb_spec k k') as [->|Hne].
    + split; [done |]. intros H. destruct H. by left.
    + rewrite IH, not_elem_of_cons. split; [intros H; by split | by intros [_ H]].
Qed.

Lemma lru_put_keys {V} k (v : V) (c : list (string * V)) :
  (length c ≤ 2)%nat →
  (lru_put k v c).*1 = k :: filter (λ k', k' ≠ k) c.*1.
Proof.
  intros Hlen. unfold lru_put. rewrite take_ge.
  - cbn. f_equal. induction c as [|[k' v'] c IH]; [done |].
    rewrite filter_cons. cbn [fmap list_fmap fst]. rewrite filter_cons. cbn.
    cbn in Hlen. destruct (decide (k' ≠ k)); cbn; rewrite <- IH by lia; done.
  - cbn. pose proof (length_filter (λ kv : string * V, kv.1 ≠ k) c).
    unfold lru_maxsize. lia.
Qed.

Lemma two_keys_length (l : list string) a b :
  NoDup l → (∀ x, x ∈ l → x ∈ [a; b]) → (length l ≤ 2)%nat.
Proof.
  intros Hnd Hsub.
  apply (submseteq_length l [a; b]), NoDup_submseteq; done.
Qed.

Lemma memo_inv_cache_length w : memo_inv w → (length (gitmodules_cache w) ≤ 2)%nat.
Proof.
  intros (_ & _ & _ & _ & Hnd & Hkeys).
  rewrite <- (length_fmap fst). by eapply two_keys_length.
Qed.

Lemma lru_put_inv {V} url (v : V) (c : list (string * V)) :
  (length c ≤ 2)%nat →
  NoDup c.*1 →
  (∀ k, k ∈ c.*1 → k ∈ [nonwmf_extensions; nonwmf_skins]) →
  url ∈ [nonwmf_extensions; nonwmf_skins] →
  NoDup (lru_put url v c).*1 ∧
  (∀ k, k ∈ (lru_put url v c).*1 → k ∈ [nonwmf_extensions; nonwmf_skins]) ∧
  (∀ url', lru_get url' (lru_put url v c) = None →
           url' ≠ url ∧ lru_get url' c = None).
Proof.
  intros Hlen Hnd Hkeys Hurl. rewrite (lru_put_keys url v c Hlen).
  split; [| split].
  - apply NoDup_cons. split.
    + intros Hin. apply list_elem_of_filter in Hin as [Hne _]. done.
    + by apply NoDup_filter.
  - intros k Hk. apply elem_of_cons in Hk as [-> | Hk]; [done |].
    apply list_elem_of_filter in Hk as [_ Hk]. by apply Hkeys.
  - intros url' Hnone. apply lru_get_None in Hnone.
    rewrite (lru_put_keys url v c Hlen) in Hnone.
    apply not_elem_of_cons in Hnone as [Hne Hnotin]. split; [done |].
    apply lru_get_None. intros Hin. apply Hnotin.
    apply list_elem_of_filter. by split.
Qed.

Lemma memo_inv_log_other r w :
  r ≠ ReqExtdistrepos → r ≠ settings_request → (∀ url, r ≠ ReqGet url) →
  memo_inv w → memo_inv (log_request r w).
Proof.
  intros Hr1 Hr2 Hr3 ((H1 & H2 & H3) & Hext & Hset & Hgit & Hnd & Hkeys).
  unfold memo_inv, at_most_once. cbn [extdist_cache settings_cache gitmodules_cache log_request].
  rewrite !times_requested_other by done.
  repeat split; try done.
  - intros url. by rewrite times_requested_other.
  - intros url Hnone. rewrite times_requested_other by done. by apply Hgit.
Qed.

Lemma memo_inv_same w w' :
  net_log w' = net_log w → extdist_cache w' = extdist_cache w →
  settings_cache w' = settings_cache w →
  gitmodules_cache w' = gitmodules_cache w →
  memo_inv w → memo_inv w'.
Proof.
  intros Hn He Hs Hg. unfold memo_inv, at_most_once, times_requested.
  by rewrite Hn, He, Hs, Hg.
Qed.

Lemma memoizes_ret {A} (a : A) : memoizes (mret a).
Proof. by intros w Hinv. Qed.

Lemma memoizes_raise {A} (e : exn) : memoizes (@raise A e).
Proof. intros w Hinv. by apply at_most_once_memo_inv. Qed.

Lemma memoizes_bind {A B} (m : M A) (k : A → M B) :
  memoizes m → (∀ a, memoizes (k a)) → memoizes (m ≫= k).
Proof.
  intros Hm Hk w Hinv. specialize (Hm w Hinv). unfold_M.
  destruct (m w) as [[a|e] w1]; [by apply Hk | done].
Qed.

Lemma memoizes_get_extdist_repos E : memoizes (get_extdist_repos E).
Proof.
  intros w Hinv. destruct (extdist_cache w) as [data|] eqn:Hc.
  - by rewrite (get_extdist_repos_hit E w data Hc).
  - rewrite (get_extdist_repos_miss E w Hc).
    destruct Hinv as ((H1 & H2 & H3) & Hext & Hset & Hgit & Hnd & Hkeys).
    assert (at_most_once (log_request ReqExtdistrepos w)) as Hamo.
    { unfold at_most_once. rewrite times_requested_log_request, decide_True by done.
      rewrite (Hext Hc). split; [lia |].
      rewrite times_requested_other by done. split; [done |].
      intros url. by rewrite times_requested_other. }
    destruct (extdistrepos_api E _) as [data|]; [| exact Hamo].
    split; [exact Hamo |]. split; [done |].
    cbn [settings_cache gitmodules_cache set_extdist_cache log_request].
    split; [| split; [| done]].
    + intros Hnone. rewrite <- (Hset Hnone). by apply times_requested_other.
    + intros url Hnone. rewrite <- (Hgit url Hnone). by apply times_requested_other.
Qed.

Lemma memoizes_settings_yaml E : memoizes (_settings_yaml E).
Proof.
  intros w Hinv. destruct (settings_cache w) as [doc|] eqn:Hc.
  - by rewrite (settings_yaml_hit E w doc Hc).
  - unfold _settings_yaml, get_gerrit_yaml, fetch. unfold_M. rewrite Hc.
    fold settings_request.
    destruct Hinv as ((H1 & H2 & H3) & Hext & Hset & Hgit & Hnd & Hkeys).
    assert (at_most_once (log_request settings_request w)) as Hamo.
    { unfold at_most_once. rewrite (times_requested_other ReqExtdistrepos) by done.
      split; [done |].
      rewrite times_requested_log_request, decide_True by done.
      rewrite (Hset Hc). split; [lia |].
      intros url. by rewrite times_requested_other. }
    destruct (gerrit_file_yaml E _ _ _) as [doc|]; [| exact Hamo].
    split; [exact Hamo |].
    cbn [extdist_cache settings_cache gitmodules_cache set_settings_cache log_request].
    split; [| split; [done | split; [| done]]].
    + intros Hnone. rewrite <- (Hext Hnone). by apply times_requested_other.
    + intros url Hnone. rewrite <- (Hgit url Hnone). by apply times_requested_other.
Qed.

Lemma memoizes_settings_get doc k1 k2 : memoizes (settings_get doc k1 k2).
Proof.
  unfold settings_get. destruct (doc !! k1) as [d|]; [| apply memoizes_raise].
  destruct (d !! k2); [apply memoizes_ret | apply memoizes_raise].
Qed.

Lemma memoizes_gerrit_prefix_list E prefix : memoizes (gerrit_prefix_list E prefix).
Proof.
  intros w Hinv. unfold gerrit_prefix_list, fetch. unfold_M.
  assert (memo_inv (log_request (ReqGerritProjects prefix) w)) as Hlog
    by (by apply memo_inv_log_other).
  destruct (gerrit_projects E _ prefix); [done | by apply at_most_once_memo_inv].
Qed.

Lemma memoizes_parse_gitmodules E url :
  url ∈ [nonwmf_extensions; nonwmf_skins] → memoizes (parse_gitmodules E url).
Proof.
  intros Hurl w Hinv.
  pose proof (memo_inv_cache_length w Hinv) as Hlen.
  destruct Hinv as ((H1 & H2 & H3) & Hext & Hset & Hgit & Hnd & Hkeys).
  unfold parse_gitmodules, parse_gitmodules_uncached, fetch. unfold_M.
  destruct (lru_get url (gitmodules_cache w)) as [entries|] eqn:Hc.
  - destruct (lru_put_inv url entries _ Hlen Hnd Hkeys Hurl) as (Hnd' & Hkeys' & Hget').
    split; [done |]. split; [done |]. split; [done |].
    cbn [gitmodules_cache set_gitmodules_cache]. split; [| done].
    intros url' Hnone. apply Hget' in Hnone as [_ Hnone]. by apply Hgit.
  - assert (at_most_once (log_request (ReqGet url) w)) as Hamo.
    { unfold at_most_once. rewrite !times_requested_other by done.
      split; [done |]. split; [done |]. intros url'.
      rewrite times_requested_log_request. destruct (decide _) as [Heq|]; [| done].
      injection Heq as <-. rewrite (Hgit url Hc). lia. }
    destruct (raw_file E _ url) as [text|]; [| exact Hamo].
    destruct (resolve_manifest text) as [entries|e]; [| exact Hamo].
    cbn [gitmodules_cache log_request].
    destruct (lru_put_inv url entries _ Hlen Hnd Hkeys Hurl) as (Hnd' & Hkeys' & Hget').
    split; [exact Hamo |].
    cbn [extdist_cache settings_cache gitmodules_cache set_gitmodules_cache log_request].
    split; [| split; [| split; [| done]]].
    + intros Hnone. rewrite <- (Hext Hnone). by apply times_requested_other.
    + intros Hnone. rewrite <- (Hset Hnone). by apply times_requested_other.
    + intros url' Hnone. apply Hget' in Hnone as [Hne Hnone].
      rewrite <- (Hgit url' Hnone). apply times_requested_other. congruence.
Qed.

Ltac memoizes_step :=
  lazymatch goal with
  | |- memoizes (mret _) => apply memoizes_ret
  | |- memoizes (raise _) => apply memoizes_raise
  | |- memoizes (parse_gitmodules _ _) =>
      apply memoizes_parse_gitmodules; set_solver
  | |- memoizes (gerrit_prefix_list _ _) => apply memoizes_gerrit_prefix_list
  | |- memoizes (_settings_yaml _) => apply memoizes_settings_yaml
  | |- memoizes (settings_get _ _ _) => apply memoizes_settings_get
  | |- memoizes (_ ≫= _) => apply memoizes_bind; [| intros ?]
  | |- memoizes (if ?b then _ else _) => destruct b
  | |- memoizes (match ?x with _ => _ end) => destruct x
  end.

Lemma memoizes_run_rules (rules : list rule) :
  Forall (λ r : rule, ∀ repos, memoizes (r repos)) rules →
  ∀ repos, memoizes (run_rules rules repos).
Proof.
  induction 1 as [|r rules Hr _ IH]; intros repos; cbn [run_rules].
  - apply memoizes_ret.
  - by apply memoizes_bind.
Qed.

Lemma memoizes_rules_before fl :
  Forall (λ r : rule, ∀ repos, memoizes (r repos)) (rules_before_listing fl).
Proof.
  unfold rules_before_listing, rule_core, rule_pywikibot, rule_ooui.
  repeat constructor; intros repos; repeat memoizes_step.
Qed.

Lemma memoizes_rules_after E fl data :
  Forall (λ r : rule, ∀ repos, memoizes (r repos)) (rules_after_listing E fl data).
Proof.
  unfold rules_after_listing.
  repeat constructor; intros repos;
    unfold rule_exts, rule_skins, rule_puppet, rule_puppet_or_wmcs,
      rule_operations, rule_armchairgm, rule_twn, rule_milkshake,
      rule_bundled, rule_wikimedia, rule_vendor, rule_services, rule_libs,
      rule_analytics, rule_schemas, rule_shouthow, rule_wmcs,
      bundled_repos, wikimedia_deployed_repos;
    repeat memoizes_step.
Qed.

Lemma memoizes_build_repos E fl : memoizes (build_repos E fl).
Proof.
  unfold build_repos. apply memoizes_bind.
  { apply memoizes_run_rules, memoizes_rules_before. }
  intros repos. apply memoizes_bind; [apply memoizes_get_extdist_repos |].
  intros data. apply memoizes_run_rules, memoizes_rules_after.
Qed.

Lemma memoizes_publish E name args c : memoizes (publish E name args c).
Proof.
  intros w Hinv.
  assert (memo_inv (publish E name args c w).2) as Hpub.
  { destruct (publish_tables E name args c w) as (Hn & He & Hs & Hg).
    by apply (memo_inv_same w). }
  destruct (publish E name args c w) as [[[]|e] w']; [done |].
  by apply at_most_once_memo_inv.
Qed.

Lemma memoizes_make_conf E name args on : memoizes (make_conf E name args on).
Proof.
  unfold make_conf. apply memoizes_bind; [apply memoizes_build_repos |].
  intros repos. apply memoizes_publish.
Qed.

Lemma memoizes_run_profiles E args ps : memoizes (run_profiles E args ps).
Proof.
  induction ps as [|p ps IH]; cbn [run_profiles].
  - apply memoizes_ret.
  - apply memoizes_bind; [apply memoizes_make_conf | done].
Qed.

Lemma memo_inv_fresh_world d f : memo_inv (fresh_world d f).
Proof.
  unfold memo_inv, at_most_once, times_requested. cbn.
  repeat split; try done; try lia.
  - constructor.
  - intros url H. by apply not_elem_of_nil in H.
Qed.

(** X16.  In every run of [main] that starts in a fresh process, whether it
    ends normally or with an exception, the listing of extensions and skins,
    the settings document and each manifest were requested at most
    once. *)
Lemma memoized_queries_once E args d f :
  at_most_once (main E args (fresh_world d f)).2.
Proof.
  pose proof (memoizes_run_profiles E args profiles (fresh_world d f)
                (memo_inv_fresh_world d f)) as H.
  unfold main. destruct (run_profiles E args profiles (fresh_world d f))
    as [[[]|e] w']; [by apply at_most_once_memo_inv | done].
Qed.

(** * Further properties *)

(** ** The adapters *)

Lemma append_inj_r (a b t : string) : a +:+ t = b +:+ t → a = b.
Proof.
  intros H.
  assert (String.length a = String.length b) as Hlen.
  { apply (f_equal String.length) in H. rewrite !length_append in H. lia. }
  revert b H Hlen. induction a as [|c a IH]; intros [|c' b] H Hlen;
    try discriminate Hlen; [done |].
  simpl in H. injection H as -> H. f_equal. apply IH; [done |].
  simpl in Hlen. lia.
Qed.

Lemma prefix_append (s t : string) : String.prefix s (s +:+ t) = true.
Proof.
  induction s as [|c s IH]; simpl; [by destruct t |].
  by destruct (ascii_dec c c).
Qed.

(** X1.  The adapters keep repositories apart: two names give the same
    URL only when they are the same name, for [repo_info], [phab_repo],
    [bitbucket_repo] and, with the host fixed, [gh_repo]; and every
    descriptor they return has an [https://] URL and the poll interval of
    5400000 milliseconds. *)
Theorem adapters_injective_well_formed :
  (∀ a b, url (repo_info a) = url (repo_info b) → a = b) ∧
  (∀ a b, url (phab_repo a) = url (phab_repo b) → a = b) ∧
  (∀ a b, url (bitbucket_repo a) = url (bitbucket_repo b) → a = b) ∧
  (∀ host a b, url (gh_repo a host) = url (gh_repo b host) → a = b) ∧
  (∀ name, well_formed (repo_info name) ∧ well_formed (phab_repo name) ∧
           well_formed (bitbucket_repo name)) ∧
  (∀ name host, well_formed (gh_repo name host)).
Proof.
  split; [| split; [| split; [| split; [| split]]]].
  - intros a b H. cbn [url repo_info] in H.
    apply (inj (String.app _)) in H. by apply append_inj_r in H.
  - intros a b H. cbn [url phab_repo] in H. by apply (inj (String.app _)) in H.
  - intros a b H. cbn [url bitbucket_repo] in H.
    apply (inj (String.app _)) in H. by apply append_inj_r in H.
  - intros host a b H. cbn [url gh_repo] in H.
    apply (inj (String.app _)) in H. apply (inj (String.app _)) in H.
    by apply (inj (String.app _)) in H.
  - intros name. unfold well_formed. repeat split; reflexivity.
  - intros name host. split; [apply prefix_append | reflexivity].
Qed.

Lemma adapters_injective_well_formed_witness :
  "mediawiki/core" = "mediawiki/core".
Proof.
  apply (proj1 adapters_injective_well_formed "mediawiki/core" "mediawiki/core").
  reflexivity.
Defined.

(** ** The listing of the projects under a prefix *)

(** X2.  [gerrit_prefix_list] always issues its request.  When the request
    fails it raises; otherwise it returns the mapping that has, for each
    project whose state is [ACTIVE], the descriptor [repo_info] of its
    name under that name, and nothing for any other project. *)
Theorem gerrit_prefix_list_active E prefix w :
  net_log (gerrit_prefix_list E prefix w).2 = ReqGerritProjects prefix :: net_log w ∧
  (gerrit_projects E (length (net_log w)) prefix = None →
   (gerrit_prefix_list E prefix w).1 = Raise (RequestFailed (ReqGerritProjects prefix))) ∧
  (∀ data, gerrit_projects E (length (net_log w)) prefix = Some data →
     ∃ listed, (gerrit_prefix_list E prefix w).1 = Ok listed ∧
       ∀ name, listed !! name =
               match data !! name with
               | Some state =>
                   if String.eqb state "ACTIVE" then Some (repo_info name) else None
               | None => None
               end).
Proof.
  split; [apply gerrit_prefix_list_requests |].
  unfold gerrit_prefix_list, fetch. unfold_M. split.
  - by intros ->.
  - intros data ->. eexists. split; [reflexivity |].
    intros name. rewrite map_lookup_imap. by destruct (data !! name).
Qed.

Lemma gerrit_prefix_list_active_witness :
  (gerrit_prefix_list (env_status 0) "analytics/" (fresh_world ∅ ∅)).1
  = Raise (RequestFailed (ReqGerritProjects "analytics/")).
Proof.
  apply (gerrit_prefix_list_active (env_status 0) "analytics/" (fresh_world ∅ ∅)).
  reflexivity.
Defined.

(** ** Cached queries *)

Lemma lru_get_put_eq {V} k (v : V) (c : list (string * V)) :
  lru_get k (lru_put k v c) = Some v.
Proof. unfold lru_put. cbn. by rewrite String.eqb_refl. Qed.

(** X3.  A list that [parse_gitmodules] has returned is returned again by
    every later call for the same URL without a request, whatever the
    remote file has become; a call that raises stores nothing, so that the
    next call for that URL asks again. *)
Theorem parse_gitmodules_cached E url w :
  (∀ entries w1,
     parse_gitmodules E url w = (Ok entries, w1) →
     ∀ E', (parse_gitmodules E' url w1).1 = Ok entries ∧
           net_log (parse_gitmodules E' url w1).2 = net_log w1) ∧
  (∀ e w1,
     parse_gitmodules E url w = (Raise e, w1) →
     gitmodules_cache w1 = gitmodules_cache w ∧
     lru_get url (gitmodules_cache w1) = None ∧
     net_log w1 = ReqGet url :: net_log w).
Proof.
  split.
  - intros entries w1 Hcall E'.
    assert (lru_get url (gitmodules_cache w1) = Some entries) as Hhit.
    { revert Hcall. unfold parse_gitmodules, parse_gitmodules_uncached, fetch.
      unfold_M. destruct (lru_get url (gitmodules_cache w)) as [cached|].
      - intros [= <- <-]. apply lru_get_put_eq.
      - destruct (raw_file E _ url) as [text|]; [| done].
        destruct (resolve_manifest text) as [found|e]; [| done].
        intros [= <- <-]. apply lru_get_put_eq. }
    by apply parse_gitmodules_hit.
  - intros e w1. unfold parse_gitmodules, parse_gitmodules_uncached, fetch.
    unfold_M. destruct (lru_get url (gitmodules_cache w)) as [cached|] eqn:Hc; [done |].
    destruct (raw_file E _ url) as [text|].
    + destruct (resolve_manifest text) as [found|e']; [done |].
      by intros [= <- <-].
    + by intros [= <- <-].
Qed.

Lemma parse_gitmodules_cached_witness :
  (parse_gitmodules (env_status 0) nonwmf_skins
     (parse_gitmodules (env_serving manifest_foo) nonwmf_skins (fresh_world ∅ ∅)).2).1
  = Ok [("org/repo", gh_repo_default "org/repo")].
Proof.
  apply (proj1 (parse_gitmodules_cached (env_serving manifest_foo) nonwmf_skins
                  (fresh_world ∅ ∅))
           [("org/repo", gh_repo_default "org/repo")]
           (parse_gitmodules (env_serving manifest_foo) nonwmf_skins
              (fresh_world ∅ ∅)).2).
  by_computation.
Defined.

(** X4.  Once [get_extdist_repos] or [_settings_yaml] has returned, every
    later call returns the same value and leaves the state as it is,
    whatever the remote answers then; a call that raises leaves the cache
    empty, so that the next call asks again. *)
Theorem fetch_once_then_cached E w :
  (∀ data w1, get_extdist_repos E w = (Ok data, w1) →
              ∀ E', get_extdist_repos E' w1 = (Ok data, w1)) ∧
  (∀ e w1, get_extdist_repos E w = (Raise e, w1) →
           extdist_cache w1 = None ∧ net_log w1 = ReqExtdistrepos :: net_log w) ∧
  (∀ doc w1, _settings_yaml E w = (Ok doc, w1) →
             ∀ E', _settings_yaml E' w1 = (Ok doc, w1)) ∧
  (∀ e w1, _settings_yaml E w = (Raise e, w1) →
           settings_cache w1 = None ∧ net_log w1 = settings_request :: net_log w).
Proof.
  split; [| split; [| split]].
  - intros data w1 Hcall E'. apply get_extdist_repos_hit.
    revert Hcall. unfold get_extdist_repos, fetch. unfold_M.
    destruct (extdist_cache w) as [cached|] eqn:Hc.
    + by intros [= <- <-].
    + destruct (extdistrepos_api E _); [| done]. by intros [= <- <-].
  - intros e w1. unfold get_extdist_repos, fetch. unfold_M.
    destruct (extdist_cache w) as [cached|] eqn:Hc; [done |].
    destruct (extdistrepos_api E _); [done |]. by intros [= <- <-].
  - intros doc w1 Hcall E'. apply settings_yaml_hit.
    revert Hcall. unfold _settings_yaml, get_gerrit_yaml, fetch. unfold_M.
    destruct (settings_cache w) as [cached|] eqn:Hc.
    + by intros [= <- <-].
    + destruct (gerrit_file_yaml E _ _ _); [| done]. by intros [= <- <-].
  - intros e w1. unfold _settings_yaml, get_gerrit_yaml, fetch. unfold_M.
    destruct (settings_cache w) as [cached|] eqn:Hc; [done |].
    destruct (gerrit_file_yaml E _ _ _); [done |]. by intros [= <- <-].
Qed.

Lemma fetch_once_then_cached_witness :
  extdist_cache (get_extdist_repos (env_status 0) (fresh_world ∅ ∅)).2 = None.
Proof.
  apply (proj1 (proj2 (fetch_once_then_cached (env_status 0) (fresh_world ∅ ∅)))
           (RequestFailed ReqExtdistrepos)
           (get_extdist_repos (env_status 0) (fresh_world ∅ ∅)).2).
  by_computation.
Defined.

(** X5.  A settings document without the key [bundles], or without the
    bundle asked for, makes [bundled_repos] and [wikimedia_deployed_repos]
    raise [KeyError] for the missing key; the document is stored all the
    same, so that the other function reads the same document. *)
Theorem bundles_missing_key E w doc :
  settings_cache w = None →
  gerrit_file_yaml E (length (net_log w)) "mediawiki/tools/release"
                   "make-release/settings.yaml" = Some doc →
  settings_cache (bundled_repos E w).2 = Some doc ∧
  settings_cache (wikimedia_deployed_repos E w).2 = Some doc ∧
  (bundled_repos E w).1 =
    match doc !! "bundles" with
    | None => Raise (KeyError "bundles")
    | Some bundles =>
        match bundles !! "base" with
        | None => Raise (KeyError "base")
        | Some names => Ok names
        end
    end ∧
  (wikimedia_deployed_repos E w).1 =
    match doc !! "bundles" with
    | None => Raise (KeyError "bundles")
    | Some bundles =>
        match bundles !! "wmf_core" with
        | None => Raise (KeyError "wmf_core")
        | Some names => Ok names
        end
    end.
Proof.
  intros Hmiss Hdoc.
  unfold bundled_repos, wikimedia_deployed_repos, _settings_yaml, get_gerrit_yaml,
    fetch, settings_get.
  unfold_M. rewrite Hmiss, Hdoc.
  destruct (doc !! "bundles") as [bundles|]; [| done].
  by destruct (bundles !! "base"), (bundles !! "wmf_core").
Qed.

Lemma bundles_missing_key_witness :
  (bundled_repos env_base_only (fresh_world ∅ ∅)).1 = Ok ["mediawiki/core"] ∧
  (wikimedia_deployed_repos env_base_only (fresh_world ∅ ∅)).1
  = Raise (KeyError "wmf_core").
Proof.
  destruct (bundles_missing_key env_base_only (fresh_world ∅ ∅)
              {[ "bundles" := {[ "base" := ["mediawiki/core"] ]} ]})
    as (_ & _ & Hbase & Hwmf); [reflexivity | reflexivity |].
  split.
  - rewrite Hbase. by_computation.
  - rewrite Hwmf. by_computation.
Defined.

(** ** More on writing and restarting *)

(** X6.  A configuration with the same URLs as the one in place is written
    and never restarts the instance: [publish] then returns normally and
    runs no command, whatever the flag and the answers of [systemctl] are.
    In particular publishing again what was just published restarts
    nothing. *)
Theorem same_urls_no_restart E name args c w previous :
  files w !! dest_of name = Some previous →
  extract_urls c = extract_urls previous →
  publish E name args c w = (Ok tt, written name c w) ∧
  issued w (publish E name args c w).2 = [] ∧
  ∀ E' args',
    publish E' name args' c (publish E name args c w).2
    = (Ok tt, written name c (written name c w)).
Proof.
  intros Hprev Hurls.
  assert (∀ E0 args0 w0 p, files w0 !! dest_of name = Some p →
            extract_urls c = extract_urls p →
            publish E0 name args0 c w0 = (Ok tt, written name c w0)) as Hsame.
  { intros E0 args0 w0 p Hp Hu.
    rewrite (publish_eq _ _ _ _ _ (loads_Some _ _ _ Hp)), Hp.
    assert (has_changed (Some p) c = false) as -> by by apply has_changed_false.
    by rewrite andb_false_r. }
  rewrite (Hsame E args w previous Hprev Hurls). cbn [snd].
  split; [done |]. split; [apply issued_nil, sys_log_written |].
  intros E' args'. apply (Hsame E' args' _ c); [| done].
  by rewrite files_written, lookup_insert_eq.
Qed.

Lemma same_urls_no_restart_witness :
  publish (env_status 0) "core" restart_on
    (conf_of {[ "core" := repo_info "mediawiki/core" ]})
    (written "core" conf_core (fresh_world ∅ ∅))
  = (Ok tt, written "core" (conf_of {[ "core" := repo_info "mediawiki/core" ]})
              (written "core" conf_core (fresh_world ∅ ∅))).
Proof.
  destruct (same_urls_no_restart (env_status 0) "core" restart_on
              (conf_of {[ "core" := repo_info "mediawiki/core" ]})
              (written "core" conf_core (fresh_world ∅ ∅)) conf_core)
    as [Hpublish _].
  - by_computation.
  - by_computation.
  - exact Hpublish.
Defined.

Lemma extract_urls_empty (c : conf) : extract_urls c = ∅ ↔ repos c = ∅.
Proof.
  split.
  - intros Hempty. apply map_empty. intros name.
    destruct (repos c !! name) as [d|] eqn:Hd; [| done].
    assert (url d ∈ extract_urls c) as Hin
      by (apply elem_of_extract_urls; eauto).
    rewrite Hempty in Hin. by apply not_elem_of_empty in Hin.
  - intros Hempty. apply set_eq. intros u. rewrite elem_of_extract_urls, Hempty.
    split; [| by intros H%not_elem_of_empty].
    intros (name & d & Hd & _). by rewrite lookup_empty in Hd.
Qed.

(** X7.  Where no file is in place at the destination, neither one that
    loads nor one that does not, a mapping counts as changed exactly when
    it is not empty: with the flag set, [publish] asks [systemctl] for the
    status of the instance when the mapping has a repository, and writes
    the file and runs nothing when it has none. *)
Theorem first_publish E name c w :
  files w !! dest_of name = None →
  dest_of name ∉ unreadable w →
  (has_changed None c = true ↔ repos c ≠ ∅) ∧
  (repos c = ∅ → publish E name restart_on c w = (Ok tt, written name c w)) ∧
  (repos c ≠ ∅ →
   ∃ later, issued w (publish E name restart_on c w).2
            = (later ++ [status_cmd name])%list).
Proof.
  intros Hnone Hout.
  assert (loads name w) as Hloads by (by intros _).
  assert (has_changed None c = true ↔ repos c ≠ ∅) as Hiff.
  { rewrite has_changed_true. cbn [previous_urls]. by rewrite extract_urls_empty. }
  split; [done |]. split.
  - intros Hempty. rewrite (publish_eq _ _ _ _ _ Hloads), Hnone.
    destruct (has_changed None c) eqn:Hc; [| done].
    by destruct (proj1 Hiff eq_refl).
  - intros Hnonempty. apply Hiff in Hnonempty.
    destruct (publish_cases E name restart_on c w Hloads) as [_ Hcases].
    cbn zeta in Hcases.
    rewrite Hnone, Hnonempty in Hcases.
    destruct Hcases as [(Hb & _) | [(_ & _ & _ & Hi) | (_ & _ & Hi)]]; [done | |].
    + exists []. by rewrite Hi.
    + exists [restart_cmd name]. by rewrite Hi.
Qed.

Lemma first_publish_witness :
  publish (env_status 0) "analytics" restart_on (conf_of ∅) (fresh_world ∅ ∅)
  = (Ok tt, written "analytics" (conf_of ∅) (fresh_world ∅ ∅)).
Proof.
  apply (first_publish (env_status 0) "analytics" (conf_of ∅) (fresh_world ∅ ∅));
    [reflexivity | apply not_elem_of_empty | reflexivity].
Defined.

(** X8.  Where the previous file is absent or loads: when the status
    command succeeds and the restart command fails, [publish] raises the
    [CalledProcessError] of the restart command with its exit status; the
    new configuration is written by then and both commands have run. *)
Theorem restart_failure_raises E name args c w code :
  loads name w →
  restart args = true →
  has_changed (files w !! dest_of name) c = true →
  systemctl E (length (sys_log w)) (status_cmd name) = 0 →
  systemctl E (S (length (sys_log w))) (restart_cmd name) = code →
  code ≠ 0 →
  publish E name args c w
  = (Raise (CalledProcessError (restart_cmd name) code),
     log_command (restart_cmd name)
       (log_command (status_cmd name) (written name c w))) ∧
  files (publish E name args c w).2 !! dest_of name = Some c.
Proof.
  intros Hloads Hflag Hchanged Hstatus Hrestart Hcode.
  split; [| by rewrite (files_publish _ _ _ _ _ Hloads), lookup_insert_eq].
  rewrite (publish_eq _ _ _ _ _ Hloads), Hflag, Hchanged, Hstatus. cbn [andb Z.eqb].
  unfold check_call. cbn [length sys_log log_command]. rewrite sys_log_written.
  rewrite Hrestart. by destruct (Z.eqb_spec code 0).
Qed.

Lemma restart_failure_raises_witness :
  (publish env_restart_fails "core" restart_on conf_core (fresh_world ∅ ∅)).1
  = Raise (CalledProcessError (restart_cmd "core") 1).
Proof.
  pose proof (restart_failure_raises env_restart_fails "core" restart_on conf_core
                (fresh_world ∅ ∅) 1) as H.
  destruct H as [-> _]; [intros _; apply not_elem_of_empty | reflexivity
                        | by_computation | reflexivity | reflexivity
                        | discriminate | reflexivity].
Defined.

(** X9.  A call of [make_conf] whose build raises writes nothing: it
    raises the same exception, and the files, those that load and those
    that do not, the directories and the commands run are what they were;
    only requests were issued. *)
Theorem build_failure_writes_nothing E name args on w e w1 :
  build_repos E (enabled on) w = (Raise e, w1) →
  make_conf E name args on w = (Raise e, w1) ∧
  files w1 = files w ∧ dirs w1 = dirs w ∧ sys_log w1 = sys_log w ∧
  (∃ later, net_log w1 = (later ++ net_log w)%list) ∧
  unreadable w1 = unreadable w.
Proof.
  intros Hbuild. split.
  - unfold make_conf. unfold_M. by rewrite Hbuild.
  - pose proof (build_frame_build_repos E (enabled on) w) as Hframe.
    pose proof (unreadable_build_repos E (enabled on) w) as Hunreadable.
    rewrite Hbuild in Hframe, Hunreadable.
    destruct Hframe as (Hfiles & Hdirs & Hsys & Hnet). done.
Qed.

Lemma build_failure_writes_nothing_witness :
  files (make_conf (env_all [] ["Vector"] manifest_foo) "extensions" restart_on
           [exts] (fresh_world ∅ ∅)).2 = ∅.
Proof.
  destruct (build_failure_writes_nothing (env_all [] ["Vector"] manifest_foo)
              "extensions" restart_on [exts] (fresh_world ∅ ∅)
              (RuntimeError "Why are there no Gerrit extensions?")
              (build_repos (env_all [] ["Vector"] manifest_foo) (enabled [exts])
                 (fresh_world ∅ ∅)).2) as [-> [Hfiles _]].
  - by_computation.
  - exact Hfiles.
Defined.

(** ** Descriptors are well formed *)

Lemma returns_with_ret {A} (P : A → Prop) (a : A) : P a → returns_with P (mret a).
Proof. intros Ha w Hw. split; [done |]. by intros a' [= <-]. Qed.

Lemma returns_with_raise {A} (P : A → Prop) (e : exn) : returns_with P (raise e).
Proof. intros w Hw. split; [done |]. by intros a. Qed.

Lemma returns_with_bind {A B} (P : A → Prop) (Q : B → Prop) (m : M A) (k : A → M B) :
  returns_with P m → (∀ a, P a → returns_with Q (k a)) → returns_with Q (m ≫= k).
Proof.
  intros Hm Hk w Hw. destruct (Hm w Hw) as [Hw1 Ha]. unfold_M.
  destruct (m w) as [[a|e] w1]; cbn in *.
  - by apply Hk; [apply Ha |].
  - split; [done |]. by intros b.
Qed.

Lemma well_formed_classify url0 name d :
  classify url0 = Ok (Some (name, d)) → well_formed d.
Proof.
  unfold classify.
  repeat (match goal with
          | |- context [if PyStr.contains ?h ?u then _ else _] =>
              destruct (PyStr.contains h u)
          end);
    intros [= <- <-] || discriminate;
    first [ split; [apply prefix_append | reflexivity]
          | split; reflexivity ].
Qed.

Lemma well_formed_resolve_sections config sections acc entries :
  Forall (λ entry : string * repo, well_formed entry.2) acc →
  resolve_sections config sections acc = Ok entries →
  Forall (λ entry : string * repo, well_formed entry.2) entries.
Proof.
  revert acc. induction sections as [|s sections IH]; intros acc Hacc; cbn.
  - by intros [= <-].
  - destruct (section_url config s) as [url0|e]; [| done].
    destruct (classify url0) as [[[name d]|]|e] eqn:Hc; [| by apply IH | done].
    apply IH. apply Forall_app. split; [done |].
    constructor; [| done]. by apply (well_formed_classify url0 name).
Qed.

Lemma lru_get_elem_of {V} k (v : V) (c : list (string * V)) :
  lru_get k c = Some v → ∃ k', (k', v) ∈ c.
Proof.
  induction c as [|[k' v'] c IH]; cbn; [done |].
  destruct (String.eqb k k').
  - intros [= <-]. exists k'. by left.
  - intros H. destruct (IH H) as [k'' Hin]. exists k''. by right.
Qed.

Lemma cache_well_formed_put url entries w :
  cache_well_formed w →
  Forall (λ entry : string * repo, well_formed entry.2) entries →
  cache_well_formed
    (set_gitmodules_cache (lru_put url entries (gitmodules_cache w)) w).
Proof.
  intros Hw Hentries. unfold cache_well_formed, lru_put.
  cbn [gitmodules_cache set_gitmodules_cache].
  apply Forall_take. constructor; [done |].
  apply Forall_forall. intros kv Hkv. apply list_elem_of_filter in Hkv as [_ Hkv].
  unfold cache_well_formed in Hw. rewrite Forall_forall in Hw. by apply Hw.
Qed.

Lemma returns_with_parse_gitmodules E url :
  returns_with (Forall (λ entry : string * repo, well_formed entry.2))
               (parse_gitmodules E url).
Proof.
  intros w Hw. unfold parse_gitmodules, parse_gitmodules_uncached, fetch. unfold_M.
  destruct (lru_get url (gitmodules_cache w)) as [cached|] eqn:Hc.
  - assert (Forall (λ entry : string * repo, well_formed entry.2) cached) as Hcached.
    { apply lru_get_elem_of in Hc as [k Hin].
      unfold cache_well_formed in Hw. rewrite Forall_forall in Hw.
      apply (Hw _ Hin). }
    split; [by apply cache_well_formed_put |]. by intros a [= <-].
  - destruct (raw_file E _ url) as [text|]; [| by split].
    destruct (resolve_manifest text) as [entries|e] eqn:Hres; [| by split].
    assert (Forall (λ entry : string * repo, well_formed entry.2) entries) as Hentries.
    { unfold resolve_manifest in Hres.
      destruct (ConfigParser.read_string text) as [config|]; [| done].
      by apply (well_formed_resolve_sections config (ConfigParser.sections config) []). }
    split; [by apply (cache_well_formed_put url entries (log_request _ w)) |].
    by intros a [= <-].
Qed.

Lemma returns_with_gerrit_prefix_list E prefix :
  returns_with (map_Forall (λ _, well_formed)) (gerrit_prefix_list E prefix).
Proof.
  intros w Hw. unfold gerrit_prefix_list, fetch. unfold_M.
  destruct (gerrit_projects E _ prefix) as [data|]; [| by split].
  split; [done |]. intros listed [= <-] name d.
  rewrite map_lookup_imap. destruct (data !! name) as [state|]; [| done]. cbn.
  destruct (String.eqb state "ACTIVE"); [| done].
  intros [= <-]. split; reflexivity.
Qed.

Lemma returns_with_any {A} (m : M A) :
  (∀ w, gitmodules_cache (m w).2 = gitmodules_cache w) →
  returns_with (λ _, True) m.
Proof.
  intros Hsame w Hw. split; [| done].
  unfold cache_well_formed. by rewrite Hsame.
Qed.

Lemma returns_with_get_extdist_repos E :
  returns_with (λ _, True) (get_extdist_repos E).
Proof.
  apply returns_with_any. intros w. unfold get_extdist_repos, fetch. unfold_M.
  destruct (extdist_cache w); [done |]. by destruct (extdistrepos_api E _).
Qed.

Lemma returns_with_bundles E key :
  returns_with (λ _, True) (_settings_yaml E ≫= λ doc, settings_get doc "bundles" key).
Proof.
  apply returns_with_any. intros w.
  unfold _settings_yaml, get_gerrit_yaml, settings_get, fetch. unfold_M.
  destruct (settings_cache w) as [doc|].
  - destruct (doc !! "bundles") as [b|]; [| done]. by destruct (b !! key).
  - destruct (gerrit_file_yaml E _ _ _) as [doc|]; [| done]. cbn.
    destruct (doc !! "bundles") as [b|]; [| done]. by destruct (b !! key).
Qed.

Lemma well_formed_set_items items (m : gmap string repo) :
  Forall (λ entry : string * repo, well_formed entry.2) items →
  map_Forall (λ _, well_formed) m →
  map_Forall (λ _, well_formed) (set_items items m).
Proof.
  unfold set_items. intros Hitems. revert m.
  induction Hitems as [|[k v] items Hv _ IH]; intros m Hm; cbn; [done |].
  apply IH. by apply map_Forall_insert_2.
Qed.

Lemma well_formed_fmap {A} (f : A → string * repo) (l : list A) :
  (∀ a, well_formed (f a).2) →
  Forall (λ entry : string * repo, well_formed entry.2) (f <$> l).
Proof. intros Hf. apply Forall_fmap, Forall_forall. intros a _. apply Hf. Qed.

Lemma well_formed_repo_info name : well_formed (repo_info name).
Proof. split; reflexivity. Qed.

Lemma well_formed_phab_repo name : well_formed (phab_repo name).
Proof. split; reflexivity. Qed.

Lemma well_formed_gh_repo name host : well_formed (gh_repo name host).
Proof. split; [apply prefix_append | reflexivity]. Qed.

(** Proves that a mapping built by the writes of a rule from well-formed
    parts is well formed. *)
Ltac well_formed_map :=
  repeat first
    [ assumption
    | apply well_formed_repo_info
    | apply well_formed_phab_repo
    | apply well_formed_gh_repo
    | apply map_Forall_insert_2
    | apply map_Forall_union_2
    | apply well_formed_set_items
    | apply well_formed_fmap; intros ?; cbn [snd]
    | apply Forall_cons_2; [cbn [snd] |]
    | apply Forall_nil_2 ].

Ltac returns_with_step :=
  lazymatch goal with
  | |- returns_with _ (mret _) => apply returns_with_ret; well_formed_map
  | |- returns_with _ (raise _) => apply returns_with_raise
  | |- returns_with _ (parse_gitmodules _ _ ≫= _) =>
      eapply returns_with_bind; [apply returns_with_parse_gitmodules | intros ? ?]
  | |- returns_with _ (gerrit_prefix_list _ _ ≫= _) =>
      eapply returns_with_bind; [apply returns_with_gerrit_prefix_list | intros ? ?]
  | |- returns_with _ ((_settings_yaml _ ≫= _) ≫= _) =>
      eapply returns_with_bind; [apply returns_with_bundles | intros ? ?]
  | |- returns_with _ (if ?b then _ else _) => destruct b
  | |- returns_with _ (match ?x with _ => _ end) => destruct x
  end.

Lemma returns_with_run_rules (rules : list rule) :
  Forall (λ r : rule, ∀ repos, map_Forall (λ _, well_formed) repos →
                       returns_with (map_Forall (λ _, well_formed)) (r repos)) rules →
  ∀ repos, map_Forall (λ _, well_formed) repos →
           returns_with (map_Forall (λ _, well_formed)) (run_rules rules repos).
Proof.
  induction 1 as [|r rules Hr _ IH]; intros repos Hrepos; cbn [run_rules].
  - by apply returns_with_ret.
  - eapply returns_with_bind; [by apply Hr | done].
Qed.

Lemma returns_with_rules_before fl :
  Forall (λ r : rule, ∀ repos, map_Forall (λ _, well_formed) repos →
                       returns_with (map_Forall (λ _, well_formed)) (r repos))
         (rules_before_listing fl).
Proof.
  unfold rules_before_listing, rule_core, rule_pywikibot, rule_ooui.
  repeat (apply Forall_cons_2; [intros repos Hrepos |]); [.. | apply Forall_nil_2];
    repeat returns_with_step.
Qed.

Lemma returns_with_rules_after E fl data :
  Forall (λ r : rule, ∀ repos, map_Forall (λ _, well_formed) repos →
                       returns_with (map_Forall (λ _, well_formed)) (r repos))
         (rules_after_listing E fl data).
Proof.
  unfold rules_after_listing.
  repeat (apply Forall_cons_2; [intros repos Hrepos |]); [.. | apply Forall_nil_2];
    unfold rule_exts, rule_skins, rule_puppet, rule_puppet_or_wmcs,
      rule_operations, rule_armchairgm, rule_twn, rule_milkshake,
      rule_bundled, rule_wikimedia, rule_vendor, rule_services, rule_libs,
      rule_analytics, rule_schemas, rule_shouthow, rule_wmcs,
      bundled_repos, wikimedia_deployed_repos, gh_repo_default;
    repeat returns_with_step.
Qed.

Lemma returns_with_build_repos E fl :
  returns_with (map_Forall (λ _, well_formed)) (build_repos E fl).
Proof.
  unfold build_repos. eapply returns_with_bind.
  { apply returns_with_run_rules; [apply returns_with_rules_before |].
    apply map_Forall_empty. }
  intros repos Hrepos. eapply returns_with_bind.
  { apply returns_with_get_extdist_repos. }
  intros data _. by apply returns_with_run_rules; [apply returns_with_rules_after |].
Qed.

(** X10.  Every descriptor of a mapping that [make_conf] builds has an
    [https://] URL and the poll interval of 5400000 milliseconds, whatever
    the remote answers are, provided that the lists stored for
    [parse_gitmodules] are well formed, as they are in a fresh process and
    stay after every call. *)
Theorem build_repos_well_formed E fl w :
  cache_well_formed w →
  cache_well_formed (build_repos E fl w).2 ∧
  ∀ final, (build_repos E fl w).1 = Ok final →
           ∀ name d, final !! name = Some d →
                     String.prefix "https://" (url d) = true ∧
                     ms_between_poll d = 5400000.
Proof.
  intros Hw. destruct (returns_with_build_repos E fl w Hw) as [Hw' Hfinal].
  split; [done |]. intros final Hok name d Hd. by apply (Hfinal final Hok name d).
Qed.

Lemma build_repos_well_formed_witness :
  cache_well_formed
    (build_repos (env_all ["Cite"] ["Vector"] manifest_foo) (enabled [exts; skins])
                 (fresh_world ∅ ∅)).2.
Proof.
  apply (build_repos_well_formed (env_all ["Cite"] ["Vector"] manifest_foo)
           (enabled [exts; skins]) (fresh_world ∅ ∅)).
  constructor.
Defined.

(** ** A run that ends normally *)

Lemma cache_publish E name args c w :
  gitmodules_cache (publish E name args c w).2 = gitmodules_cache w.
Proof. by destruct (publish_tables E name args c w) as (_ & _ & _ & H). Qed.

Lemma make_conf_ok_inv E name args on w w' :
  cache_well_formed w →
  make_conf E name args on w = (Ok tt, w') →
  cache_well_formed w' ∧
  dirs w ⊆ dirs w' ∧
  directory_of name ∈ dirs w' ∧
  ∃ repos, files w' !! dest_of name = Some (conf_of repos) ∧
           map_Forall (λ _, well_formed) repos.
Proof.
  intros Hw Hmake. unfold make_conf in Hmake.
  apply bind_inv_ok in Hmake as (repos & w1 & Hbuild & Hpub).
  destruct (returns_with_build_repos E (enabled on) w Hw) as [Hw1 Hwf].
  pose proof (build_frame_build_repos E (enabled on) w) as (_ & Hdirs & _).
  rewrite Hbuild in Hw1, Hwf, Hdirs. cbn [fst snd] in *.
  pose proof (dirs_publish E name args (conf_of repos) w1) as [Hdir Hsub].
  pose proof (files_publish E name args (conf_of repos) w1
                (publish_ok_loads _ _ _ _ _ _ Hpub)) as Hfiles.
  pose proof (cache_publish E name args (conf_of repos) w1) as Hcache.
  rewrite Hpub in Hdir, Hsub, Hfiles, Hcache. cbn [snd] in *.
  split; [unfold cache_well_formed; by rewrite Hcache |].
  split; [by rewrite <- Hdirs |]. split; [done |].
  exists repos. split; [by rewrite Hfiles, lookup_insert_eq |].
  intros name' d Hd. by apply (Hwf repos eq_refl name' d).
Qed.

Lemma run_profiles_ok_inv E args ps w w' :
  NoDup ((λ p, dest_of p.1) <$> ps) →
  cache_well_formed w →
  run_profiles E args ps w = (Ok tt, w') →
  ∀ p, p ∈ ps →
       directory_of p.1 ∈ dirs w' ∧
       ∃ repos, files w' !! dest_of p.1 = Some (conf_of repos) ∧
                map_Forall (λ _, well_formed) repos.
Proof.
  revert w. induction ps as [|q ps IH]; intros w Hnodup Hw Hrun p Hp;
    [by apply not_elem_of_nil in Hp |].
  cbn [run_profiles] in Hrun.
  apply bind_inv_ok in Hrun as ([] & w1 & Hq & Hrest).
  rewrite fmap_cons in Hnodup. apply NoDup_cons in Hnodup as [Hfresh Hnodup].
  destruct (make_conf_ok_inv E q.1 args q.2 w w1 Hw Hq)
    as (Hw1 & _ & Hdir & repos & Hfile & Hwf).
  apply elem_of_cons in Hp as [-> | Hp]; [| by apply (IH w1)].
  split.
  - assert (∀ ps' w0 w0', run_profiles E args ps' w0 = (Ok tt, w0') →
                          dirs w0 ⊆ dirs w0') as Hmono.
    { clear. induction ps' as [|r ps' IH]; intros w0 w0' Hrun.
      - cbn in Hrun. by injection Hrun as <-.
      - cbn [run_profiles] in Hrun.
        apply bind_inv_ok in Hrun as ([] & w1 & Hr & Hrest).
        etrans; [| by apply (IH w1)].
        unfold make_conf in Hr. apply bind_inv_ok in Hr as (repos & w2 & Hb & Hp).
        pose proof (build_frame_build_repos E (enabled r.2) w0) as (_ & Hd & _).
        rewrite Hb in Hd. cbn in Hd. rewrite <- Hd.
        pose proof (dirs_publish E r.1 args (conf_of repos) w2) as [_ Hsub].
        by rewrite Hp in Hsub. }
    by apply (Hmono ps w1 w').
  - exists repos. split; [| done].
    pose proof (files_frame_run_profiles E args ps ((λ p, dest_of p.1) <$> ps)) as Hframe.
    specialize (Hframe (λ r Hr, list_elem_of_fmap_2 (λ p, dest_of p.1) _ r Hr) w1
                       (dest_of q.1) Hfresh).
    rewrite Hrest in Hframe. cbn in Hframe. by rewrite Hframe.
Qed.

(** X11.  When [main] ends normally in a process that started fresh, every
    one of the eighteen profiles has its directory and its configuration
    file, and that file is a mapping set in the fixed envelope
    (two indexers, [data], reference detection on) whose descriptors all
    have an [https://] URL and the poll interval of 5400000
    milliseconds. *)
Theorem main_writes_every_profile E args d f w' :
  main E args (fresh_world d f) = (Ok tt, w') →
  length profiles = 18%nat ∧
  ∀ name on, (name, on) ∈ profiles →
    directory_of name ∈ dirs w' ∧
    ∃ repos,
      files w' !! dest_of name
      = Some {| max_concurrent_indexers := 2; dbpath := "data";
                detect_ref := true; repos := repos |} ∧
      ∀ display d, repos !! display = Some d →
                   String.prefix "https://" (url d) = true ∧
                   ms_between_poll d = 5400000.
Proof.
  intros Hmain. split; [reflexivity |]. intros name on Hin.
  destruct (run_profiles_ok_inv E args profiles (fresh_world d f) w'
              profiles_dest_NoDup (Forall_nil_2 _) Hmain (name, on) Hin)
    as (Hdir & repos & Hfile & Hwf).
  split; [done |]. exists repos. split; [done |].
  intros display d0 Hd0. by apply (Hwf display d0).
Qed.

Lemma main_writes_every_profile_witness :
  directory_of "wmcs" ∈ dirs moving_run.2.
Proof.
  destruct (main_writes_every_profile env_moving restart_off ∅ ∅ moving_run.2)
    as [_ Hall]; [by_computation |].
  destruct (Hall "wmcs" [wmcs]) as [Hdir _]; [by_computation | exact Hdir].
Defined.

(** ** More on the classification of manifest entries *)

Lemma contains_unfold needle s :
  PyStr.contains needle s =
  String.prefix needle s ||
  match s with
  | String _ s' => PyStr.contains needle s'
  | EmptyString => false
  end.
Proof. by destruct s. Qed.

Lemma contains_cons needle c s :
  PyStr.contains needle (String c s)
  = String.prefix needle (String c s) || PyStr.contains needle s.
Proof. reflexivity. Qed.

Lemma contains_prefix needle s :
  String.prefix needle s = true → PyStr.contains needle s = true.
Proof. intros H. by rewrite contains_unfold, H. Qed.

Lemma contains_append_r needle p s :
  PyStr.contains needle s = true → PyStr.contains needle (p +:+ s) = true.
Proof.
  intros H. induction p as [|c p IH]; [done |].
  change (String c p +:+ s) with (String c (p +:+ s)).
  rewrite contains_cons, IH. apply orb_true_r.
Qed.

Lemma replace_absent old new s :
  PyStr.contains old s = false → PyStr.replace old new s = s.
Proof.
  unfold PyStr.replace. induction s as [|c s IH]; [done |].
  rewrite contains_cons. intros [Hpre Hrest]%orb_false_iff.
  cbn [PyStr.replace_from]. rewrite Hpre. f_equal. by apply IH.
Qed.

Lemma replace_from_skip old new t s :
  PyStr.replace_from old new (String.length t) (t +:+ s)
  = PyStr.replace_from old new O s.
Proof.
  induction t as [|c t IH]; [done |].
  change (String c t +:+ s) with (String c (t +:+ s)).
  cbn [String.length PyStr.replace_from]. apply IH.
Qed.

Lemma replace_prefix c old new s :
  PyStr.replace (String c old) new (String c old +:+ s)
  = new +:+ PyStr.replace (String c old) new s.
Proof.
  unfold PyStr.replace.
  change (String c old +:+ s) with (String c (old +:+ s)) at 1.
  cbn [PyStr.replace_from].
  change (String c (old +:+ s)) with (String c old +:+ s).
  rewrite prefix_append. f_equal.
  replace (String.length (String c old) - 1)%nat with (String.length old)
    by (cbn [String.length]; lia).
  apply replace_from_skip.
Qed.

Lemma strip_prefix c old s :
  PyStr.contains (String c old) s = false →
  PyStr.replace (String c old) "" (String c old +:+ s) = s.
Proof. intros H. by rewrite replace_prefix, replace_absent. Qed.

(** How [classify] goes for a URL [u] that is left after the suffix is
    removed, case by case of the first host that occurs in it. *)
Lemma classify_stripped url0 :
  classify url0 =
    let u := strip_git url0 in
    if PyStr.contains "github.com" u then
      let name := PyStr.replace "https://github.com/" ""
                    (PyStr.replace "git@github.com:" "" u) in
      Ok (Some (name, gh_repo_default name))
    else if PyStr.contains "bitbucket.org" u then
      let name := PyStr.replace "https://bitbucket.org/" "" u in
      Ok (Some (name, bitbucket_repo name))
    else if PyStr.contains "gitlab.com" u then
      let name := PyStr.replace "https://gitlab.com/" "" u in
      Ok (Some (name, gitlab_repo name))
    else if PyStr.contains "invent.kde.org" u then
      let name := PyStr.replace "https://invent.kde.org/" "" u in
      Ok (Some (name, gh_repo name "invent.kde.org"))
    else if PyStr.contains "phabricator.nichework.com" u then Ok None
    else Raise (RuntimeError ("Unsure how to handle URL: " +:+ u)).
Proof. reflexivity. Qed.

(** X12.  A manifest URL in the form that a host's branch expects comes
    back as the name behind the prefix: [https://github.com/NAME.git] and
    [git@github.com:NAME.git] give [NAME] with the GitHub descriptor whose
    URL is [https://github.com/NAME]; the Bitbucket, GitLab and KDE forms
    give [NAME] with the descriptor of their host, provided that no host
    tested earlier occurs in the URL and that no prefix which the branch
    removes occurs in [NAME].  A name that holds [github.com], as in
    [git@github.com:user/user.github.com.git], is one of them. *)
Theorem classify_prefixed name :
  (PyStr.contains "git@github.com:" ("https://github.com/" +:+ name) = false →
   PyStr.contains "https://github.com/" name = false →
   classify (("https://github.com/" +:+ name) +:+ ".git")
   = Ok (Some (name, gh_repo_default name)) ∧
   url (gh_repo_default name) = "https://github.com/" +:+ name) ∧
  (PyStr.contains "git@github.com:" name = false →
   PyStr.contains "https://github.com/" name = false →
   classify (("git@github.com:" +:+ name) +:+ ".git")
   = Ok (Some (name, gh_repo_default name))) ∧
  (PyStr.contains "github.com" ("https://bitbucket.org/" +:+ name) = false →
   PyStr.contains "https://bitbucket.org/" name = false →
   classify (("https://bitbucket.org/" +:+ name) +:+ ".git")
   = Ok (Some (name, bitbucket_repo name)) ∧
   url (bitbucket_repo name) = ("https://bitbucket.org/" +:+ name) +:+ ".git") ∧
  (PyStr.contains "github.com" ("https://gitlab.com/" +:+ name) = false →
   PyStr.contains "bitbucket.org" ("https://gitlab.com/" +:+ name) = false →
   PyStr.contains "https://gitlab.com/" name = false →
   classify (("https://gitlab.com/" +:+ name) +:+ ".git")
   = Ok (Some (name, gitlab_repo name)) ∧
   url (gitlab_repo name) = "https://gitlab.com/" +:+ name) ∧
  (PyStr.contains "github.com" ("https://invent.kde.org/" +:+ name) = false →
   PyStr.contains "bitbucket.org" ("https://invent.kde.org/" +:+ name) = false →
   PyStr.contains "gitlab.com" ("https://invent.kde.org/" +:+ name) = false →
   PyStr.contains "https://invent.kde.org/" name = false →
   classify (("https://invent.kde.org/" +:+ name) +:+ ".git")
   = Ok (Some (name, gh_repo name "invent.kde.org")) ∧
   url (gh_repo name "invent.kde.org") = "https://invent.kde.org/" +:+ name).
Proof.
  split; [| split; [| split; [| split]]].
  - intros Hssh Hhttps. split; [| reflexivity].
    rewrite classify_stripped, strip_git_suffix. cbn zeta.
    assert (PyStr.contains "github.com" ("https://github.com/" +:+ name) = true) as ->.
    { apply (contains_append_r "github.com" "https://" ("github.com/" +:+ name)).
      apply contains_prefix. apply (prefix_append "github.com" ("/" +:+ name)). }
    by rewrite (replace_absent _ _ _ Hssh), (strip_prefix _ _ _ Hhttps).
  - intros Hssh Hhttps.
    rewrite classify_stripped, strip_git_suffix. cbn zeta.
    assert (PyStr.contains "github.com" ("git@github.com:" +:+ name) = true) as ->.
    { apply (contains_append_r "github.com" "git@" ("github.com:" +:+ name)).
      apply contains_prefix. apply (prefix_append "github.com" (":" +:+ name)). }
    by rewrite (strip_prefix _ _ _ Hssh), (replace_absent _ _ _ Hhttps).
  - intros Hgh Hpre. split; [| reflexivity].
    rewrite classify_stripped, strip_git_suffix. cbn zeta. rewrite Hgh.
    assert (PyStr.contains "bitbucket.org" ("https://bitbucket.org/" +:+ name) = true)
      as ->.
    { apply (contains_append_r "bitbucket.org" "https://" ("bitbucket.org/" +:+ name)).
      apply contains_prefix. apply (prefix_append "bitbucket.org" ("/" +:+ name)). }
    by rewrite (strip_prefix _ _ _ Hpre).
  - intros Hgh Hbb Hpre. split; [| reflexivity].
    rewrite classify_stripped, strip_git_suffix. cbn zeta. rewrite Hgh, Hbb.
    assert (PyStr.contains "gitlab.com" ("https://gitlab.com/" +:+ name) = true) as ->.
    { apply (contains_append_r "gitlab.com" "https://" ("gitlab.com/" +:+ name)).
      apply contains_prefix. apply (prefix_append "gitlab.com" ("/" +:+ name)). }
    by rewrite (strip_prefix _ _ _ Hpre).
  - intros Hgh Hbb Hgl Hpre. split; [| reflexivity].
    rewrite classify_stripped, strip_git_suffix. cbn zeta. rewrite Hgh, Hbb, Hgl.
    assert (PyStr.contains "invent.kde.org" ("https://invent.kde.org/" +:+ name) = true)
      as ->.
    { apply (contains_append_r "invent.kde.org" "https://" ("invent.kde.org/" +:+ name)).
      apply contains_prefix. apply (prefix_append "invent.kde.org" ("/" +:+ name)). }
    by rewrite (strip_prefix _ _ _ Hpre).
Qed.

Lemma classify_prefixed_witness :
  classify "git@github.com:wikimedia/mediawiki.git"
  = Ok (Some ("wikimedia/mediawiki", gh_repo_default "wikimedia/mediawiki")) ∧
  classify "git@github.com:user/user.github.com.git"
  = Ok (Some ("user/user.github.com", gh_repo_default "user/user.github.com")) ∧
  classify "https://bitbucket.org/team/tool.git"
  = Ok (Some ("team/tool", bitbucket_repo "team/tool")).
Proof.
  destruct (classify_prefixed "wikimedia/mediawiki") as (_ & Hssh & _).
  destruct (classify_prefixed "user/user.github.com") as (_ & Hpages & _).
  destruct (classify_prefixed "team/tool") as (_ & _ & Hbb & _).
  split; [| split].
  - apply Hssh; reflexivity.
  - apply Hpages; reflexivity.
  - apply Hbb; reflexivity.
Defined.

(** X13.  The hosts are recognised by a substring anywhere in the URL and
    the name is what is left when the host's prefix is removed: a URL that
    has [github.com] in it and neither of the two prefixes, such as one
    with another scheme or one of another host with [github.com] in its
    path, is kept whole as the name, and the descriptor's URL is
    [https://github.com/] followed by that whole URL. *)
Theorem classify_unprefixed u :
  PyStr.endswith u ".git" = false →
  PyStr.contains "github.com" u = true →
  PyStr.contains "git@github.com:" u = false →
  PyStr.contains "https://github.com/" u = false →
  classify u = Ok (Some (u, gh_repo_default u)) ∧
  url (gh_repo_default u) = "https://github.com/" +:+ u.
Proof.
  intros Hgit Hhost Hssh Hhttps. split; [| reflexivity].
  rewrite classify_stripped, (strip_git_other u Hgit). cbn zeta. rewrite Hhost.
  by rewrite (replace_absent _ _ _ Hssh), (replace_absent _ _ _ Hhttps).
Qed.

Lemma classify_unprefixed_witness :
  classify "http://github.com/org/repo"
  = Ok (Some ("http://github.com/org/repo",
              gh_repo_default "http://github.com/org/repo")) ∧
  url (gh_repo_default "https://gitlab.com/mirrors/github.com-tools")
  = "https://github.com/https://gitlab.com/mirrors/github.com-tools".
Proof.
  split.
  - apply (classify_unprefixed "http://github.com/org/repo"); reflexivity.
  - apply (classify_unprefixed "https://gitlab.com/mirrors/github.com-tools");
      reflexivity.
Defined.

(** ** The result of a manifest *)

Lemma contains_percent_find_first v :
  PyStr.contains "%" v = false → PyStr.find_first (Ascii.eqb "%"%char) v = None.
Proof.
  induction v as [|c v IH]; [done |].
  rewrite contains_cons. intros [Hpre Hrest]%orb_false_iff.
  cbn [PyStr.find_first]. rewrite (IH Hrest).
  destruct (Ascii.eqb_spec "%"%char c) as [<- | Hne]; [| done].
  cbn in Hpre. by destruct v.
Qed.

(** A value without [%] is its own interpolation. *)
Lemma interpolate_some_plain depth map v :
  PyStr.contains "%" v = false →
  ConfigParser.interpolate_some (S depth) map v = Some v.
Proof.
  intros Hplain. cbn [ConfigParser.interpolate_some].
  destruct v as [|c v]; [done |].
  cbn [String.length]. by rewrite (contains_percent_find_first _ Hplain).
Qed.

(** X14.  [parse_gitmodules] returns the entries of the sections in the
    order of the manifest, one for each section on a supported host and
    none for a section on the passed-over host, and it returns exactly
    when every section has a [url] that interpolates to a URL on a known
    host; the first section without a [url] raises [KeyError].  The [url]
    of a section is its value interpolated: a value without [%] is returned
    as it is, and in the samples [%%] stands for [%] and [%(path)s] for the
    value of the option [path]. *)
Theorem resolve_sections_result config sections acc :
  (∀ repos, resolve_sections config sections acc = Ok repos ↔
            Forall (resolvable config) sections ∧
            repos = (acc ++ omap (entry_of config) sections)%list) ∧
  (∀ pre s post,
     sections = (pre ++ s :: post)%list →
     Forall (resolvable config) pre →
     ConfigParser.raw_get config s "url" = None →
     resolve_sections config sections acc = Raise (KeyError "url")) ∧
  (∀ s v, ConfigParser.raw_get config s "url" = Some v →
          PyStr.contains "%" v = false →
          section_url config s = Ok v).
Proof.
  split; [intros repos; apply resolve_sections_ok |]. split.
  - intros pre s post -> Hpre Hnone. revert acc.
    induction Hpre as [|p pre (v & Hv & Hk) _ IH]; intros acc.
    + cbn [app]. rewrite resolve_sections_step.
      unfold section_url, ConfigParser.get. by rewrite Hnone.
    + cbn [app]. rewrite resolve_sections_step, Hv.
      destruct (classification v) as [name d| |u] eqn:Hcl; [apply IH | apply IH |].
      by destruct (Hk u).
  - intros s v Hraw Hplain. unfold section_url, ConfigParser.get.
    rewrite Hraw. cbn [mbind option_bind]. unfold ConfigParser.MAX_INTERPOLATION_DEPTH.
    by rewrite (interpolate_some_plain _ _ _ Hplain).
Qed.

Lemma resolve_sections_result_witness :
  resolve_sections config_without_url ["a"; "b"; "c"] [] = Raise (KeyError "url") ∧
  resolve_manifest manifest_interpolated
  = Ok [("org/a%b", gh_repo_default "org/a%b");
        ("team/extensions/B", gitlab_repo "team/extensions/B")].
Proof.
  split.
  - destruct (resolve_sections_result config_without_url ["a"; "b"; "c"] [])
      as (_ & Hkey & _).
    apply (Hkey ["a"] "b" ["c"]).
    + reflexivity.
    + apply Forall_cons_2; [| apply Forall_nil_2].
      exists "https://gitlab.com/g/p.git". split; [reflexivity |].
      intros u. vm_compute. discriminate.
    + reflexivity.
  - assert (ConfigParser.read_string manifest_interpolated
            = Some config_interpolated) as Hread by (vm_compute; reflexivity).
    unfold resolve_manifest. rewrite Hread.
    destruct (resolve_sections_result config_interpolated
                (ConfigParser.sections config_interpolated) []) as (Hiff & _).
    apply Hiff. split.
    + apply Forall_cons_2; [| apply Forall_cons_2; [| apply Forall_nil_2]].
      * exists "https://github.com/org/a%b.git". split; [reflexivity |].
        intros u. vm_compute. discriminate.
      * exists "https://gitlab.com/team/extensions/B". split; [reflexivity |].
        intros u. vm_compute. discriminate.
    + vm_compute. reflexivity.
Defined.

(** ** Profiles of fixed repositories *)

Lemma enabled_static on f :
  on ⊆ static_flags → f ∉ static_flags → enabled on f = false.
Proof.
  intros Hsub Hf. unfold enabled. apply bool_decide_eq_false.
  intros Hin. apply Hf, Hsub, Hin.
Qed.

Lemma same_fixed_run_rules (rules rules' : list rule) :
  Forall2 same_fixed rules rules' →
  ∃ f, ∀ repos w w',
    run_rules rules repos w = (Ok (f repos), w) ∧
    run_rules rules' repos w' = (Ok (f repos), w').
Proof.
  induction 1 as [|r r' rules rules' [f Hf] _ [g Hg]].
  - exists id. by intros repos w w'.
  - exists (g ∘ f). intros repos w w'. cbn [run_rules]. unfold_M.
    destruct (Hf repos w w') as [-> ->]. apply Hg.
Qed.

Ltac same_fixed_rule flag :=
  destruct flag; eexists; intros ? ? ?; split; reflexivity.

Lemma static_rules_after E E' fl data data' repos0 w w' :
  fl exts = false → fl skins = false → fl bundled = false →
  fl wikimedia = false → fl services = false → fl libs = false →
  fl analytics = false → fl schemas = false → fl wmcs = false →
  ∃ repos,
    run_rules (rules_after_listing E fl data) repos0 w = (Ok repos, w) ∧
    run_rules (rules_after_listing E' fl data') repos0 w' = (Ok repos, w').
Proof.
  intros H1 H2 H3 H4 H5 H6 H7 H8 H9.
  destruct (same_fixed_run_rules (rules_after_listing E fl data)
              (rules_after_listing E' fl data')) as [f Hf]; [| by exists (f repos0)].
  unfold rules_after_listing.
  repeat apply Forall2_cons_2; try apply Forall2_nil_2.
  all: unfold same_fixed, rule_exts, rule_skins, rule_puppet,
    rule_puppet_or_wmcs, rule_operations, rule_armchairgm, rule_twn,
    rule_milkshake, rule_bundled, rule_wikimedia, rule_vendor, rule_services,
    rule_libs, rule_analytics, rule_schemas, rule_shouthow, rule_wmcs;
    rewrite ?H1, ?H2, ?H3, ?H4, ?H5, ?H6, ?H7, ?H8, ?H9.
  all: try (eexists; intros ? ? ?; split; reflexivity).
  - same_fixed_rule (fl puppet).
  - same_fixed_rule (fl puppet).
  - same_fixed_rule (fl operations).
  - same_fixed_rule (fl armchairgm).
  - same_fixed_rule (fl twn).
  - same_fixed_rule (fl milkshake).
  - same_fixed_rule (fl vendor).
  - same_fixed_rule (fl shouthow).
Qed.

(** X15.  A profile whose flags are all among those of fixed repositories
    ([core], [pywikibot], [ooui], [puppet], [operations], [armchairgm],
    [twn], [milkshake], [vendor], [shouthow]) asks for nothing but the
    listing of extensions and skins, which it does not use: with the
    listing at hand its build issues that one request, or none when the
    listing is stored, and returns a mapping that is the same in every
    environment and state. *)
Theorem static_profile_build E on w :
  on ⊆ static_flags →
  is_Some (extdist_cache w) ∨ is_Some (extdistrepos_api E (length (net_log w))) →
  ∃ repos,
    (build_repos E (enabled on) w).1 = Ok repos ∧
    net_log (build_repos E (enabled on) w).2
    = match extdist_cache w with
      | Some _ => net_log w
      | None => ReqExtdistrepos :: net_log w
      end ∧
    ∀ E' w',
      is_Some (extdist_cache w') ∨
      is_Some (extdistrepos_api E' (length (net_log w'))) →
      (build_repos E' (enabled on) w').1 = Ok repos.
Proof.
  intros Hsub Havail.
  assert (∀ f, f ∉ static_flags → enabled on f = false) as Hoff
    by (intros f; by apply enabled_static).
  destruct (rules_before_listing_pure (enabled on) ∅ w) as [repos0 Hbefore].
  assert (∀ w0, run_rules (rules_before_listing (enabled on)) ∅ w0 = (Ok repos0, w0))
    as Hbefore_any.
  { intros w0. revert Hbefore.
    unfold rules_before_listing, run_rules, rule_core, rule_pywikibot, rule_ooui.
    unfold_M. destruct (enabled on core), (enabled on pywikibot), (enabled on ooui);
      by intros [= <-]. }
  assert (∀ E0 w0,
            is_Some (extdist_cache w0) ∨
            is_Some (extdistrepos_api E0 (length (net_log w0))) →
            ∃ data w1, get_extdist_repos E0 w0 = (Ok data, w1) ∧
                       net_log w1 = match extdist_cache w0 with
                                    | Some _ => net_log w0
                                    | None => ReqExtdistrepos :: net_log w0
                                    end) as Hlisting.
  { intros E0 w0 Hav. destruct (extdist_cache w0) as [data|] eqn:Hc.
    - exists data, w0. by rewrite (get_extdist_repos_hit E0 w0 data Hc).
    - destruct Hav as [[? [=]] | [data Hdata]].
      exists data. eexists. rewrite (get_extdist_repos_miss E0 w0 Hc), Hdata.
      by split. }
  destruct (Hlisting E w Havail) as (data & w1 & Hdata & Hlog).
  destruct (static_rules_after E E (enabled on) data data repos0 w1 w1)
    as (repos & Hafter & _); try (apply Hoff; by apply (bool_decide_unpack _)).
  exists repos.
  assert (build_repos E (enabled on) w = (Ok repos, w1)) as Hbuild.
  { unfold build_repos. unfold_M. by rewrite (Hbefore_any w), Hdata, Hafter. }
  rewrite Hbuild. cbn [fst snd]. split; [done |]. split; [done |].
  intros E' w' Hav'.
  destruct (Hlisting E' w' Hav') as (data' & w1' & Hdata' & _).
  destruct (static_rules_after E E' (enabled on) data data' repos0 w1 w1')
    as (repos' & Hafter1 & Hafter'); try (apply Hoff; by apply (bool_decide_unpack _)).
  rewrite Hafter in Hafter1. injection Hafter1 as <-.
  unfold build_repos. unfold_M. by rewrite (Hbefore_any w'), Hdata', Hafter'.
Qed.

Lemma static_profile_build_witness :
  ∃ repos,
    (build_repos (env_all ["Cite"] [] manifest_foo) (enabled [operations; puppet])
                 (fresh_world ∅ ∅)).1 = Ok repos ∧
    (build_repos env_moving (enabled [operations; puppet])
                 moving_run.2).1 = Ok repos.
Proof.
  destruct (static_profile_build (env_all ["Cite"] [] manifest_foo)
              [operations; puppet] (fresh_world ∅ ∅))
    as (repos & Hbuild & _ & Hany).
  - by_computation.
  - right. by_computation.
  - exists repos. split; [exact Hbuild |].
    apply Hany. left. by_computation.
Defined.

(** ** The file of a profile *)









